(** * Experiment orchestration: resumable training and checkpoint measurements

    A shallow embedding of [src/Experiment.py] and [src/main.py]:
    the resumable epoch loop ([Experiment.train]), the checkpoint ordering of
    [Experiment.do_measurements_on_checkpoints], the per-checkpoint measurement
    loop ([Experiment.do_measurements]), the resolution of the measure set in
    [Experiment.__init__] and the matrix fan-out of [main]. *)

From Stdlib Require String DecimalString DecimalNat.
From Stdlib Require Import Ascii Lia.
From stdpp Require Import gmap strings list sorting.

(** ** Python strings *)

Module PyStr.

(** [str(n)] for a non-negative integer. *)
Definition str (n : nat) : string :=
  DecimalString.NilEmpty.string_of_uint (Nat.to_uint n).

Fixpoint fill (c : Ascii.ascii) (k : nat) (s : string) : string :=
  match k with
  | 0 => s
  | S k' => String c (fill c k' s)
  end.

(** [s.rjust(width, c)], which is what the format spec [c>width] does. *)
Definition rjust (width : nat) (c : Ascii.ascii) (s : string) : string :=
  fill c (width - String.length s) s.

(** [f'{epoch:0>3}'] *)
Definition fmt03 (epoch : nat) : string := rjust 3 "0"%char (str epoch).

(** [s.endswith(suffix)] *)
Definition endswith (s suffix : string) : bool :=
  (String.length suffix <=? String.length s) &&
  String.eqb
    (String.substring (String.length s - String.length suffix)
                      (String.length suffix) s)
    suffix.

End PyStr.

(** ** Checkpoint files

    [Logger] is not part of the sources at hand, and the specification names
    no file.  The one place that shows a file name is the suffix test of
    [do_measurements_on_checkpoints] ([path.endswith(f'{epoch:0>3}.tar')]),
    which expects the name of a checkpoint to end with the epoch
    right-justified with zeros to width three and the extension.  [Ckpt.path]
    is the name with exactly that padding.  It is an assumption about
    [Logger]: names padded wider pass the same test, and [Padded] has them
    for what depends on the width. *)

Module Ckpt.

(** The file name taken for the checkpoint of [epoch] inside the models
    directory [dir]: the format of line 147 behind the directory.  Not
    fixed by the sources at hand. *)
Definition path (dir : string) (epoch : nat) : string :=
  dir +:+ PyStr.fmt03 epoch +:+ ".tar".

(** The suffix [f'{epoch:0>3}.tar'] tested by the scheduler. *)
Definition suffix (epoch : nat) : string := PyStr.fmt03 epoch +:+ ".tar".

(** Reads a string of decimal digits, leading zeros included. *)
Definition read (s : string) : option nat :=
  Nat.of_uint <$> DecimalString.NilEmpty.uint_of_string s.

End Ckpt.

(** ** The measurement scheduler: [do_measurements_on_checkpoints] *)

Module Sched.

Definition priority_checkpoints : list nat := [600; 300; 100; 10; 1; 0].

(** [list.remove(x)]: drops the first element equal to [x]; [None] stands for
    the [ValueError] raised when there is none. *)
Fixpoint list_remove (x : string) (l : list string) : option (list string) :=
  match l with
  | [] => None
  | y :: l' =>
      if String.eqb x y then Some l' else (y ::.) <$> list_remove x l'
  end.

(** The inner loop [for path in model_path_list: ...], which mutates the list
    it iterates over.  A Python list iterator keeps an index [i] and stops
    when [i] reaches the current length; the body moves a matching path to
    the back.  [None] is an abnormal end: [ValueError] from [remove], or the
    fuel exhausted. *)
Fixpoint scan (suffix : string) (fuel i : nat) (l : list string)
  {struct fuel} : option (list string) :=
  match l !! i with
  | None => Some l
  | Some path =>
      match fuel with
      | 0 => None
      | S fuel' =>
          if PyStr.endswith path suffix then
            l' ← list_remove path l;
            scan suffix fuel' (S i) (l' ++ [path])
          else scan suffix fuel' (S i) l
      end
  end.

(** One iteration of the outer loop, for one priority epoch. *)
Definition move_to_back (epoch : nat) (l : list string) : option (list string) :=
  scan (Ckpt.suffix epoch) (length l) 0 l.

(** The outer loop [for epoch in reversed(priority_checkpoints)]. *)
Definition prioritise (prios : list nat) (l : list string) : option (list string) :=
  foldl (λ acc epoch, acc ≫= move_to_back epoch) (Some l) (reverse prios).

(** The order in which [do_measurements_on_checkpoints] loads the paths
    returned by [get_all_saved_model_paths]. *)
Definition visit_order (model_path_list : list string) : option (list string) :=
  reverse <$> prioritise priority_checkpoints model_path_list.

(** Whether [path] passes the suffix test of priority epoch [q]. *)
Definition hits (q : nat) (path : string) : bool :=
  PyStr.endswith path (Ckpt.suffix q).

(** Whether [path] passes the suffix test of no epoch of [qs]. *)
Definition plain (qs : list nat) (path : string) : bool :=
  negb (existsb (λ q, hits q path) qs).

(** The tests of [qs] exclude each other on the paths of [l]. *)
Definition exclusive (qs : list nat) (l : list string) : Prop :=
  ∀ q q' p, q ∈ qs → q' ∈ qs → p ∈ l →
    hits q p = true → hits q' p = true → q = q'.

(** [path] is loaded before every path that passes no priority test: it
    belongs to the group that is measured first. *)
Fixpoint pulled (order : list string) (path : string) : bool :=
  match order with
  | [] => false
  | x :: rest =>
      if String.eqb x path then true
      else negb (plain priority_checkpoints x) && pulled rest path
  end.

End Sched.

(** ** The order the specification states *)

Module Spec.

(** Priority epochs that were saved, in descending priority value, then the
    remaining saved epochs in descending order. *)
Definition visit_epochs (epochs : list nat) : list nat :=
  filter (.∈ epochs) Sched.priority_checkpoints
  ++ merge_sort (flip (≤)) (filter (.∉ Sched.priority_checkpoints) epochs).

End Spec.

(** ** Exceptions and outcomes *)

Inductive exn :=
  | RuntimeError | ZeroDivisionError | FileNotFoundError
  | NotImplementedError | TypeError | AttributeError
  | AssertionError | ValueError | OtherError (msg : string).

Inductive result (A : Type) :=
  | Ok (a : A)
  | Raise (e : exn).
Arguments Ok {A} a.
Arguments Raise {A} e.

(** ** The collaborators of the trainer

    The model, the optimizer with its learning-rate schedule and the loss are
    external.  [St] is everything a checkpoint captures (model parameters,
    optimizer and scheduler state); a batch is opaque. *)

Class Trainable (St Batch : Type) := {
  (** [zero_grad], forward pass, loss, [backward] and [optimizer.step()] on
      one batch: the updated state, whether the loss is not-a-number, and the
      number of correct predictions. *)
  gradient_step : St → Batch → St * bool * nat;
  (** [len(inputs)] *)
  batch_len : Batch → nat;
  (** [lr_scheduler.step()] *)
  lr_scheduler_step : St → St;
}.

(** ** The trainer: [_train_single_epoch] and [train] *)

Module Train.
Section with_collaborators.
Context {St Batch : Type} `{Trainable St Batch}.

(** What one call leaves behind, in order. *)
Inductive event :=
  | Loaded (path : string)
  | Saved (epoch : nat) (st : St)
  | Stepped (epoch : nat) (nan : bool)
  | LrStepped (epoch : nat).

(** The fields of [Experiment] the trainer reads. *)
Record experiment := {
  models_dir : string;
  max_epochs : nat;
  log_epochs : gset nat;
  train_loader : list Batch;
}.

(** The mutable world: the state of model and optimizer, the checkpoint files
    (path to saved epoch and state) and the log of what happened. *)
Record world := {
  model : St;
  files : gmap string (nat * St);
  log : list event;
}.

Definition record (ev : event) (w : world) : world :=
  {| model := model w; files := files w; log := log w ++ [ev] |}.

Definition set_model (st : St) (w : world) : world :=
  {| model := st; files := files w; log := log w |}.

(** Modelled from the spec: [Logger.save_model] persists model and optimizer
    state, keyed by epoch, in the file named after the epoch. *)
Definition save_model (x : experiment) (epoch : nat) (w : world) : world :=
  record (Saved epoch (model w))
    {| model := model w;
       files := <[Ckpt.path (models_dir x) epoch := (epoch, model w)]> (files w);
       log := log w |}.

(** Modelled from the spec: [Logger.get_all_saved_model_paths] enumerates the
    checkpoints present. *)
Definition get_all_saved_model_paths (w : world) : list string :=
  elements (dom (files w)).

(** Modelled from the spec: [Logger.load_model] restores model and optimizer
    state from the file and returns the epoch saved with them. *)
Definition load_model (path : string) (w : world) : world * result nat :=
  match files w !! path with
  | Some (epoch, st) => (record (Loaded path) (set_model st w), Ok epoch)
  | None => (w, Raise FileNotFoundError)
  end.

(** [sorted(paths)]: ascending in the order of [str], which compares code
    points lexicographically. *)
Definition sorted (paths : list string) : list string :=
  merge_sort String.le paths.

(** The batch loop of [_train_single_epoch].  The epoch is only written to
    the log. *)
Fixpoint batch_loop (epoch : nat) (batches : list Batch)
    (tot_correct tot_samples : nat) (w : world) : world * result (nat * nat) :=
  match batches with
  | [] => (w, Ok (tot_correct, tot_samples))
  | batch :: rest =>
      let '(st, nan, correct) := gradient_step (model w) batch in
      let w := record (Stepped epoch nan) (set_model st w) in
      if nan then (w, Raise RuntimeError)
      else if batch_len batch =? 0 then (w, Raise ZeroDivisionError)
      else batch_loop epoch rest (tot_correct + correct)
                      (tot_samples + batch_len batch) w
  end.

(** Returns the accuracy [tot_correct / tot_samples] as a fraction. *)
Definition _train_single_epoch (x : experiment) (epoch : nat) (w : world)
  : world * result (nat * nat) :=
  match batch_loop epoch (train_loader x) 0 0 w with
  | (w, Ok (tot_correct, tot_samples)) =>
      if tot_samples =? 0 then (w, Raise ZeroDivisionError)
      else (w, Ok (tot_correct, tot_samples))
  | (w, Raise e) => (w, Raise e)
  end.

(** The loop [for epoch in range(start_epoch, max_epochs)]. *)
Fixpoint epoch_loop (x : experiment) (epochs : list nat) (w : world)
  : world * result () :=
  match epochs with
  | [] => (w, Ok ())
  | epoch :: rest =>
      let w := if bool_decide (epoch ∈ log_epochs x)
               then save_model x epoch w else w in
      match _train_single_epoch x epoch w with
      | (w, Raise e) => (w, Raise e)
      | (w, Ok _) =>
          epoch_loop x rest
            (record (LrStepped epoch) (set_model (lr_scheduler_step (model w)) w))
      end
  end.

(** [train] from the point where [start_epoch] is known. *)
Definition train_from (x : experiment) (start_epoch : nat) (w : world)
  : world * result () :=
  match epoch_loop x (seq start_epoch (max_epochs x - start_epoch)) w with
  | (w, Raise e) => (w, Raise e)
  | (w, Ok _) => (save_model x (max_epochs x) w, Ok ())
  end.

(** The first lines of [train]: the checkpoint to start from.  [None] when no
    checkpoint exists. *)
Definition latest_checkpoint_path (w : world) : option string :=
  last (sorted (get_all_saved_model_paths w)).

Definition train (x : experiment) (w : world) : world * result () :=
  match latest_checkpoint_path w with
  | Some latest =>
      match load_model latest w with
      | (w, Raise e) => (w, Raise e)
      | (w, Ok start_epoch) =>
          if max_epochs x <=? start_epoch then (w, Ok ())
          else train_from x start_epoch w
      end
  | None => train_from x 0 w
  end.

(** The resume step on its own: the world after the restore and the epoch
    read from the latest checkpoint, [None] when there is no checkpoint. *)
Definition resume (w : world) : world * result (option nat) :=
  match latest_checkpoint_path w with
  | Some latest =>
      match load_model latest w with
      | (w, Ok epoch) => (w, Ok (Some epoch))
      | (w, Raise e) => (w, Raise e)
      end
  | None => (w, Ok None)
  end.

(** Every checkpoint file carries the name of the epoch saved in it, and that
    epoch is below [bound]. *)
Definition named_below (x : experiment) (bound : nat)
    (fs : gmap string (nat * St)) : Prop :=
  map_Forall (λ p saved, p = Ckpt.path (models_dir x) saved.1 ∧ saved.1 < bound) fs.

(** The epochs of the checkpoints present. *)
Definition saved_epochs (fs : gmap string (nat * St)) : list nat :=
  (λ kv, fst (snd kv)) <$> map_to_list fs.

(** How many steps of [epoch] the log holds. *)
Definition steps_of (epoch : nat) (evs : list event) : nat :=
  length (List.filter (λ ev, match ev with
                            | Stepped e _ => e =? epoch
                            | _ => false
                            end) evs).

(** No step of [evs] had a not-a-number loss. *)
Definition quiet (evs : list event) : Prop := ∀ k, Stepped k true ∉ evs.

(** The files after the saves of [evs]. *)
Definition replay (x : experiment) (fs : gmap string (nat * St))
    (evs : list event) : gmap string (nat * St) :=
  foldl (λ fs ev,
           match ev with
           | Saved epoch st => <[Ckpt.path (models_dir x) epoch := (epoch, st)]> fs
           | _ => fs
           end) fs evs.

(** One whole epoch on the state alone: the batches, then the schedule. *)
Fixpoint batches_state (batches : list Batch) (tot_samples : nat) (st : St)
  : option St :=
  match batches with
  | [] => if tot_samples =? 0 then None else Some st
  | batch :: rest =>
      let '(st, nan, _) := gradient_step st batch in
      if nan || (batch_len batch =? 0) then None
      else batches_state rest (tot_samples + batch_len batch) st
  end.

Definition epoch_state (x : experiment) (st : St) : option St :=
  lr_scheduler_step <$> batches_state (train_loader x) 0 st.

(** The state entering the epoch reached after [n] whole epochs. *)
Fixpoint after_epochs (x : experiment) (n : nat) (st : St) : option St :=
  match n with
  | 0 => Some st
  | S n => epoch_state x st ≫= after_epochs x n
  end.

End with_collaborators.
Arguments event : clear implicits.
Arguments world : clear implicits.
Arguments experiment : clear implicits.
End Train.

(** ** Measurement records and [do_measurements] *)

Module Measure.

(** A cell of a [pandas.DataFrame]: the epoch stamp, or a value of a
    measurer. *)
Inductive cell (V : Type) :=
  | Epoch (epoch : nat)
  | Val (v : V).
Arguments Epoch {V} epoch.
Arguments Val {V} v.

Record DataFrame (V : Type) := {
  columns : list string;
  rows : list (list (cell V));
}.
Arguments columns {V} _.
Arguments rows {V} _.

Section with_measurers.
Context {V Cache : Type}.

(** [measurer.measure(model, dataset, shared_cache=shared_cache)] for the
    model and dataset at hand: the record, and the cache as the measurer
    leaves it. *)
Definition measurer : Type := Cache → DataFrame V * Cache.

(** [df.insert(0, column, value)]: a new first column holding [value] in
    every row; [ValueError] when the column exists already. *)
Definition insert0 (column : string) (value : cell V) (df : DataFrame V)
  : result (DataFrame V) :=
  if bool_decide (column ∈ columns df) then Raise ValueError
  else Ok {| columns := column :: columns df;
             rows := (value ::.) <$> rows df |}.

(** [d[key] = value] on an [OrderedDict]: in place when the key is there, at
    the end otherwise. *)
Fixpoint od_set {A} (key : string) (value : A) (d : list (string * A))
  : list (string * A) :=
  match d with
  | [] => [(key, value)]
  | (k, v) :: d' =>
      if String.eqb k key then (k, value) :: d' else (k, v) :: od_set key value d'
  end.

(** The locals of [do_measurements] and the warnings it emits. *)
Record state := {
  shared_cache : Cache;
  all_measurements : list (string * DataFrame V);
  warnings : list string;
}.

(** The state in which the loop starts: a new cache, an empty mapping. *)
Definition initial (fresh : Cache) : state :=
  {| shared_cache := fresh; all_measurements := []; warnings := [] |}.

(** The loop over [measurement_dict.items()]. *)
Fixpoint measure_loop (epoch : option nat) (items : list (string * measurer))
    (s : state) : state * result () :=
  match items with
  | [] => (s, Ok ())
  | (measurement_id, m) :: rest =>
      let '(measurement_result_df, cache) := m (shared_cache s) in
      let s := {| shared_cache := cache;
                  all_measurements := all_measurements s;
                  warnings := warnings s |} in
      if negb (bool_decide ("value" ∈ columns measurement_result_df)
               || (length (rows measurement_result_df) =? 0))
      then (s, Raise AssertionError)
      else if length (rows measurement_result_df) =? 0 then
        measure_loop epoch rest
          {| shared_cache := cache;
             all_measurements := all_measurements s;
             warnings := warnings s ++ [measurement_id] |}
      else
        let stamped :=
          match epoch with
          | Some e => insert0 "epoch" (Epoch e) measurement_result_df
          | None => Ok measurement_result_df
          end in
        match stamped with
        | Raise err => (s, Raise err)
        | Ok df =>
            measure_loop epoch rest
              {| shared_cache := cache;
                 all_measurements := od_set measurement_id df (all_measurements s);
                 warnings := warnings s |}
        end
  end.

(** [do_measurements]: the warnings, and what is handed to
    [logger.write_to_measurements], if the loop gets there.  [fresh] is the
    new [SharedMeasurementVarsCache]. *)
Definition do_measurements (fresh : Cache) (measures : list (string * measurer))
    (epoch : option nat) : list string * result (list (string * DataFrame V)) :=
  match measure_loop epoch measures (initial fresh) with
  | (s, Ok _) => (warnings s, Ok (all_measurements s))
  | (s, Raise err) => (warnings s, Raise err)
  end.

(** The state after a measurer returned no rows. *)
Definition skipped (measurement_id : string) (cache : Cache) (s : state) : state :=
  {| shared_cache := cache;
     all_measurements := all_measurements s;
     warnings := warnings s ++ [measurement_id] |}.

(** Every row carries [epoch] in a first column named [epoch]. *)
Definition stamped_with (epoch : nat) (df : DataFrame V) : Prop :=
  head (columns df) = Some "epoch" ∧
  Forall (λ row, head row = Some (Epoch epoch)) (rows df).

End with_measurers.
Arguments measurer : clear implicits.
Arguments state : clear implicits.

End Measure.

(** ** Construction of an [Experiment]: the measure set *)

Module Init.

(** A value as [yaml.safe_load] returns it. *)
#[warnings="-register-all"]
Inductive yaml :=
  | YNull
  | YBool (b : bool)
  | YInt (n : Z)
  | YStr (s : string)
  | YSeq (items : list yaml)
  | YMap (entries : list (string * yaml)).

Definition lower_ascii (c : ascii) : ascii :=
  let n := nat_of_ascii c in
  if (65 <=? n) && (n <=? 90) then ascii_of_nat (n + 32) else c.

(** [s.lower()] on ASCII text. *)
Fixpoint lower (s : string) : string :=
  match s with
  | EmptyString => EmptyString
  | String c s' => String (lower_ascii c) (lower s')
  end.

(** A list of names as a YAML sequence of strings. *)
Definition names (l : list string) : yaml := YSeq (YStr <$> l).

Fixpoint chars (s : string) : list yaml :=
  match s with
  | EmptyString => []
  | String c s' => YStr (String c EmptyString) :: chars s'
  end.

(** What [for x in v] iterates over; [TypeError] when [v] is not iterable. *)
Definition py_iter (v : yaml) : result (list yaml) :=
  match v with
  | YSeq items => Ok items
  | YMap entries => Ok (YStr <$> entries.*1)
  | YStr s => Ok (chars s)
  | _ => Raise TypeError
  end.

Section with_measurer_module.
(** The module [Measurer] is external: its three lists of names and
    [getattr(Measurer, name)()], which instantiates a measurer or raises.
    [X] is what the earlier steps of [__init__] build (logger, dataset,
    model, optimizer), [W] the world the experiment then works on. *)
Context {M X W : Type}.
Context (ALL_MEASURES FAST_MEASURES SLOW_MEASURES : list string).
Context (instantiate : string → result M).

(** Lines 49 to 59: the value bound to [measure_strings]. *)
Definition measure_strings (measures_cfg : yaml) : result yaml :=
  match measures_cfg with
  | YBool true => Ok (names ALL_MEASURES)
  | YStr s =>
      if String.eqb (lower s) "fast" then Ok (names FAST_MEASURES)
      else if String.eqb (lower s) "slow" then Ok (names SLOW_MEASURES)
      else Raise NotImplementedError
  | other => Ok other
  end.

(** The dict comprehension of lines 61 and 62. *)
Fixpoint build_measures (keys : list yaml) (d : list (string * M))
  : result (list (string * M)) :=
  match keys with
  | [] => Ok d
  | YStr measurement_str :: rest =>
      match instantiate measurement_str with
      | Ok m => build_measures rest (Measure.od_set measurement_str m d)
      | Raise err => Raise err
      end
  | _ :: _ => Raise TypeError
  end.

Definition resolve_measures (measures_cfg : yaml) : result (list (string * M)) :=
  match measure_strings measures_cfg with
  | Raise err => Raise err
  | Ok v =>
      match py_iter v with
      | Raise err => Raise err
      | Ok keys => build_measures keys []
      end
  end.

Record experiment := {
  parts : X;
  measures : list (string * M);
}.

(** [Experiment.__init__]: [before] stands for the steps up to the optimizer,
    [copy_config_to_dir] is the last step. *)
Definition __init__ (before : result X) (copy_config_to_dir : X → result ())
    (measures_cfg : yaml) : result experiment :=
  match before with
  | Raise err => Raise err
  | Ok x =>
      match resolve_measures measures_cfg with
      | Raise err => Raise err
      | Ok ms =>
          match copy_config_to_dir x with
          | Raise err => Raise err
          | Ok _ => Ok {| parts := x; measures := ms |}
          end
      end
  end.

(** [run_experiment] of [main.py]: construct, train, measure. *)
Definition run_experiment (before : result X) (copy_config_to_dir : X → result ())
    (train do_measurements_on_checkpoints : experiment → W → W * result ())
    (measures_cfg : yaml) (w : W) : W * result () :=
  match __init__ before copy_config_to_dir measures_cfg with
  | Raise err => (w, Raise err)
  | Ok exp =>
      match train exp w with
      | (w, Raise err) => (w, Raise err)
      | (w, Ok _) => do_measurements_on_checkpoints exp w
      end
  end.

End with_measurer_module.
Arguments experiment : clear implicits.

End Init.

(** ** The matrix fan-out of [main] *)

Module Main.

(** What the fan-out leaves on disk and at the scheduler, in order. *)
Inductive event :=
  | WroteConf (idx : nat)
  | WroteScript (idx : nat)
  | Submitted (idx : nat).

Section with_slurm_utils.
(** [slurm_utils] and [Logger.SaveDirs] are external. *)
Context {Config SaveDirs : Type}.
Context (parse_config_matrix : string → result (list (Config * string) * string)).
Context (make_save_dirs : string → result SaveDirs).
Context (set_save_dir : Config → SaveDirs → string → result Config).
Context (write_conf_to_savedir : Config → SaveDirs → string → result string).
Context (write_to_bash_script : nat → SaveDirs → string → result ()).
Context (sbatch : SaveDirs → nat → result ()).

(** The loop [for idx, (config_dict, rel_savedir) in enumerate(...)]. *)
Fixpoint materialise (idx : nat) (configs_with_path : list (Config * string))
    (base_savedir : SaveDirs) (log : list event) : list event * result () :=
  match configs_with_path with
  | [] => (log, Ok ())
  | (config_dict, rel_savedir) :: rest =>
      match set_save_dir config_dict base_savedir rel_savedir with
      | Raise err => (log, Raise err)
      | Ok config_dict =>
          match write_conf_to_savedir config_dict base_savedir rel_savedir with
          | Raise err => (log, Raise err)
          | Ok run_savedir =>
              let log := log ++ [WroteConf idx] in
              match write_to_bash_script idx base_savedir run_savedir with
              | Raise err => (log, Raise err)
              | Ok _ => materialise (S idx) rest base_savedir (log ++ [WroteScript idx])
              end
          end
      end
  end.

(** Modelled from the spec: [slurm_utils.run_experiments] submits the [n]
    runs as independent jobs, one after the other; a job the scheduler
    refuses ends the call, and what was submitted stays submitted. *)
Fixpoint run_experiments (jobs : list nat) (base_savedir : SaveDirs)
    (log : list event) : list event * result () :=
  match jobs with
  | [] => (log, Ok ())
  | idx :: rest =>
      match sbatch base_savedir idx with
      | Raise err => (log, Raise err)
      | Ok _ => run_experiments rest base_savedir (log ++ [Submitted idx])
      end
  end.

(** [main] with [parse_and_submit_to_slurm] set. *)
Definition main (config_file_path : string) (log : list event)
  : list event * result () :=
  match parse_config_matrix config_file_path with
  | Raise err => (log, Raise err)
  | Ok (configs_with_path, parent_savedir) =>
      match make_save_dirs parent_savedir with
      | Raise err => (log, Raise err)
      | Ok base_savedir =>
          match materialise 0 configs_with_path base_savedir log with
          | (log, Raise err) => (log, Raise err)
          | (log, Ok _) =>
              run_experiments (seq 0 (length configs_with_path)) base_savedir log
          end
      end
  end.

End with_slurm_utils.

End Main.

(** ** A small instance to run the trainer on

    The state counts the gradient steps taken; a batch names the count at
    which its loss is not-a-number. *)

Module Toy.

#[export] Instance trainable : Trainable nat nat := {|
  gradient_step st poison := (S st, bool_decide (st = poison), 1);
  batch_len _ := 4;
  lr_scheduler_step st := st;
|}.

Definition fresh : Train.world nat :=
  {| Train.model := 0; Train.files := ∅; Train.log := [] |}.

(** Three epochs of one batch each, checkpoints at epochs 0 and 2. *)
Definition short_run : Train.experiment nat :=
  {| Train.models_dir := "models/"; Train.max_epochs := 3;
     Train.log_epochs := {[0; 2]}; Train.train_loader := [100] |}.

(** The same, with a loss that is not-a-number at the third step. *)
Definition diverging_run : Train.experiment nat :=
  {| Train.models_dir := "models/"; Train.max_epochs := 5;
     Train.log_epochs := {[0; 2; 3]}; Train.train_loader := [2] |}.

(** A thousand epochs with a checkpoint at epoch 500. *)
Definition long_run : Train.experiment nat :=
  {| Train.models_dir := "models/"; Train.max_epochs := 1000;
     Train.log_epochs := {[500]}; Train.train_loader := [5000] |}.

(** Measurers over a cache that counts the calls: one returns a row with a
    [value] column, one returns no rows, one returns a row without [value]. *)
Definition good : Measure.measurer nat nat :=
  λ cache, ({| Measure.columns := ["value"]; Measure.rows := [[Measure.Val cache]] |},
            S cache).

Definition silent : Measure.measurer nat nat :=
  λ cache, ({| Measure.columns := ["value"]; Measure.rows := [] |}, S cache).

Definition broken : Measure.measurer nat nat :=
  λ cache, ({| Measure.columns := ["layer"]; Measure.rows := [[Measure.Val cache]] |},
            S cache).

(** A [Measurer] module with three measurers. *)
Definition ALL_MEASURES : list string := ["Accuracy"; "NC1"; "Traces"].
Definition FAST_MEASURES : list string := ["Accuracy"].
Definition SLOW_MEASURES : list string := ["NC1"; "Traces"].

Definition instantiate (name : string) : result string :=
  if bool_decide (name ∈ ALL_MEASURES) then Ok name else Raise AttributeError.

(** A matrix of three runs; the scheduler refuses the job of index 2. *)
Definition parse_config_matrix (path : string)
  : result (list (nat * string) * string) :=
  Ok ([(10, "lr_0.1"); (20, "lr_0.01"); (30, "lr_0.001")], "runs").

Definition sbatch (base : string) (idx : nat) : result () :=
  if idx =? 2 then Raise (OtherError "sbatch") else Ok ().

End Toy.

(** ** Counting what a run did *)

Module Count.
Section with_state.
Context {St : Type}.

(** How many times the learning-rate schedule was stepped after [epoch]. *)
Definition lr_steps_of (epoch : nat) (evs : list (Train.event St)) : nat :=
  length (List.filter (λ ev, match ev with
                            | Train.LrStepped e => e =? epoch
                            | _ => false
                            end) evs).

(** The epochs of the checkpoints saved, in order. *)
Definition saves (evs : list (Train.event St)) : list nat :=
  omap (λ ev, match ev with Train.Saved e _ => Some e | _ => None end) evs.

End with_state.
End Count.

(** ** What [do_measurements] hands over, read off the measurers *)

Module Returned.
Section with_measurers.
Context {V Cache : Type}.

(** The records the measurers return when called in turn, each with the cache
    the one before left. *)
Fixpoint returned (items : list (string * Measure.measurer V Cache))
    (cache : Cache) : list (string * Measure.DataFrame V) :=
  match items with
  | [] => []
  | (measurement_id, m) :: rest =>
      let '(df, cache) := m cache in (measurement_id, df) :: returned rest cache
  end.

Definition empty (df : Measure.DataFrame V) : bool :=
  length (Measure.rows df) =? 0.

(** The record with the epoch, when there is one, as a new first column. *)
Definition stamp (epoch : option nat) (df : Measure.DataFrame V)
  : Measure.DataFrame V :=
  match epoch with
  | Some e => {| Measure.columns := "epoch" :: Measure.columns df;
                 Measure.rows := (Measure.Epoch e ::.) <$> Measure.rows df |}
  | None => df
  end.

End with_measurers.
End Returned.

(** ** The whole of [do_measurements_on_checkpoints]

    The loop that follows the reordering: each checkpoint is loaded into the
    model and measured with the epoch saved in it.  Only the model is
    restored here ([ret_model] alone is passed), so the world of this loop
    holds a model [Mdl], not the state of the trainer.

    In this module a measurer is a function of the model and the cache:
    every call makes its record anew, and nothing a measurer keeps from one
    checkpoint to the next is seen.  That is enough to say where the loop
    stops; measurer objects that keep records, which [DataFrame.insert]
    changes in place, are in [Shared]. *)

Module Campaign.
Section with_measurers.
Context {Mdl V Cache : Type}.
(** The measurers see the model that is loaded ([self.wrapped_model]). *)
Context (measures : list (string * (Mdl → Measure.measurer V Cache))).
Context (fresh : Cache).

Record world := {
  wrapped_model : Mdl;
  checkpoints : gmap string (nat * Mdl);
  (** what [logger.write_to_measurements] received, in order *)
  written : list (list (string * Measure.DataFrame V));
  warned : list string;
}.

(** [self.measures] with the model at hand. *)
Definition measures_at (mdl : Mdl) : list (string * Measure.measurer V Cache) :=
  (λ kv, (kv.1, kv.2 mdl)) <$> measures.

(** Modelled from the spec: [Logger.load_model] with [ret_model] only: the
    model saved in the file, and the epoch saved with it. *)
Definition load_model (path : string) (w : world) : world * result nat :=
  match checkpoints w !! path with
  | Some (epoch, mdl) =>
      ({| wrapped_model := mdl; checkpoints := checkpoints w;
          written := written w; warned := warned w |}, Ok epoch)
  | None => (w, Raise FileNotFoundError)
  end.

(** [do_measurements(epoch=epoch)] on the world: the table goes to the
    logger when the loop over the measurers gets through. *)
Definition do_measurements (epoch : option nat) (w : world) : world * result () :=
  match Measure.do_measurements fresh (measures_at (wrapped_model w)) epoch with
  | (ws, Ok table) =>
      ({| wrapped_model := wrapped_model w; checkpoints := checkpoints w;
          written := written w ++ [table]; warned := warned w ++ ws |}, Ok ())
  | (ws, Raise err) =>
      ({| wrapped_model := wrapped_model w; checkpoints := checkpoints w;
          written := written w; warned := warned w ++ ws |}, Raise err)
  end.

(** The loop [for model_checkpoint_path in model_path_list]. *)
Fixpoint measure_all (model_path_list : list string) (w : world)
  : world * result () :=
  match model_path_list with
  | [] => (w, Ok ())
  | model_checkpoint_path :: rest =>
      match load_model model_checkpoint_path w with
      | (w, Raise err) => (w, Raise err)
      | (w, Ok epoch) =>
          match do_measurements (Some epoch) w with
          | (w, Raise err) => (w, Raise err)
          | (w, Ok _) => measure_all rest w
          end
      end
  end.

(** [do_measurements_on_checkpoints], given what
    [get_all_saved_model_paths] returned.  [ValueError] stands for an
    abnormal end of the reordering. *)
Definition do_measurements_on_checkpoints (model_path_list : list string)
    (w : world) : world * result () :=
  match Sched.visit_order model_path_list with
  | None => (w, Raise ValueError)
  | Some order => measure_all order w
  end.

(** The table [do_measurements] builds for the checkpoint at [path]. *)
Definition table_of (w : world) (path : string)
  : option (list (string * Measure.DataFrame V)) :=
  match checkpoints w !! path with
  | Some (epoch, mdl) =>
      match Measure.do_measurements fresh (measures_at mdl) (Some epoch) with
      | (_, Ok table) => Some table
      | (_, Raise _) => None
      end
  | None => None
  end.

End with_measurers.
Arguments world : clear implicits.
End Campaign.

(** ** The run directories of the fan-out *)

Module Written.

(** Configuration and launch script of the runs [idx], [idx + 1], ... *)
Definition writes (idx n : nat) : list Main.event :=
  flat_map (λ i, [Main.WroteConf i; Main.WroteScript i]) (seq idx n).

End Written.

(** ** Small instances for the edge cases *)

Module Edge.

(** Batches that carry their size: the count at which the loss is
    not-a-number, and the number of inputs. *)
#[export] Instance sized : Trainable nat (nat * nat) := {|
  gradient_step st batch := (S st, bool_decide (st = batch.1), 1);
  batch_len batch := batch.2;
  lr_scheduler_step st := st;
|}.

(** Three epochs over a loader without batches. *)
Definition empty_run : Train.experiment nat :=
  {| Train.models_dir := "models/"; Train.max_epochs := 3;
     Train.log_epochs := {[0; 2]}; Train.train_loader := [] |}.

(** Two epochs over a loader whose second batch has no inputs. *)
Definition ragged_run : Train.experiment (nat * nat) :=
  {| Train.models_dir := "models/"; Train.max_epochs := 2;
     Train.log_epochs := {[0; 1]}; Train.train_loader := [(100, 4); (100, 0)] |}.

(** [Toy.short_run] taken up again with two more epochs. *)
Definition longer_run : Train.experiment nat :=
  {| Train.models_dir := "models/"; Train.max_epochs := 5;
     Train.log_epochs := {[0; 2; 4]}; Train.train_loader := [100] |}.

(** A measurer whose record already has an [epoch] column. *)
Definition clashing : Measure.measurer nat nat :=
  λ cache, ({| Measure.columns := ["epoch"; "value"];
               Measure.rows := [[Measure.Val cache; Measure.Val cache]] |},
            S cache).

(** A measurer that returns a record without [value] for the model 10. *)
Definition picky : list (string * (nat → Measure.measurer nat nat)) :=
  [("acc", λ mdl, if mdl =? 10 then Toy.broken else Toy.good)].

(** Three checkpoints, of the epochs 0, 1 and 5. *)
Definition shelf : Campaign.world nat nat :=
  {| Campaign.wrapped_model := 0;
     Campaign.checkpoints :=
       <["models/000.tar" := (0, 10)]>
         (<["models/001.tar" := (1, 11)]> (<["models/005.tar" := (5, 15)]> ∅));
     Campaign.written := [];
     Campaign.warned := [] |}.

Definition listing : list string :=
  ["models/000.tar"; "models/001.tar"; "models/005.tar"].

(** A launch script that cannot be written for the run of index 1. *)
Definition write_to_bash_script (idx : nat) (base run : string) : result () :=
  if idx =? 1 then Raise (OtherError "disk") else Ok ().

End Edge.

(** ** Checkpoint names of any width

    The sources at hand do not fix how wide [Logger] pads the epoch in a
    file name: every width from three on passes the suffix test of line
    147.  Whatever the width, the first epoch that needs one digit more
    sorts, as a string, before the epochs of full width. *)

Module Padded.

(** The name of the checkpoint of [epoch] with the epoch right-justified
    with zeros to [width]. *)
Definition path (width : nat) (dir : string) (epoch : nat) : string :=
  dir +:+ PyStr.rjust width "0"%char (PyStr.str epoch) +:+ ".tar".

(** The first epoch whose decimal form is longer than [width], and half of
    it. *)
Definition full (width : nat) : nat := 10 ^ width.
Definition half (width : nat) : nat := 5 * 10 ^ (width - 1).

(** [k] digits zero. *)
Definition zeros (k : nat) : Decimal.uint := Nat.iter k Decimal.D0 Decimal.Nil.

(** The checkpoints a run of [full width] epochs with the log epoch
    [half width] leaves: the one of the log epoch and the final one. *)
Definition completed {St : Type} (width : nat) (dir : string)
    (s_half s_full : St) : gmap string (nat * St) :=
  <[path width dir (half width) := (half width, s_half)]>
    (<[path width dir (full width) := (full width, s_full)]> ∅).

End Padded.

(** ** Measurers as objects: records that are shared

    [self.measures] is built once in [__init__] and the same measurer
    objects are called at every checkpoint; [DataFrame.insert] changes the
    record it is called on.  A measurer that keeps a record and hands it out
    again gets it back with the columns inserted since.  Here the records
    live in a store, a measurer hands out a reference, and the epoch is
    inserted into the record the reference points to. *)

Module Shared.
Section with_measurers.
Context {Mdl V Cache Obj : Type}.

(** The records alive in the process, by reference. *)
Local Abbreviation heap := (gmap nat (Measure.DataFrame V)).

(** [measurer.measure(self.wrapped_model, self.dataset, shared_cache=...)]
    on a measurer object: it reads and may change what the measurer objects
    keep ([Obj]), the cache and the records, and returns the reference of
    its record. *)
Definition measurer : Type :=
  Mdl → Obj → Cache → heap → nat * Obj * Cache * heap.

(** The locals of [do_measurements], the store and the warnings. *)
Record state := {
  objs : Obj;
  shared_cache : Cache;
  frames : heap;
  all_measurements : list (string * nat);
  warnings : list string;
}.

Definition warn (measurement_id : string) (s : state) : state :=
  {| objs := objs s; shared_cache := shared_cache s; frames := frames s;
     all_measurements := all_measurements s;
     warnings := warnings s ++ [measurement_id] |}.

(** [all_measurements[measurement_id] = measurement_result_df]: the mapping
    holds the reference. *)
Definition bind (measurement_id : string) (ref : nat) (s : state) : state :=
  {| objs := objs s; shared_cache := shared_cache s; frames := frames s;
     all_measurements := Measure.od_set measurement_id ref (all_measurements s);
     warnings := warnings s |}.

(** The record at [ref] after a change in place. *)
Definition put (ref : nat) (df : Measure.DataFrame V) (s : state) : state :=
  {| objs := objs s; shared_cache := shared_cache s;
     frames := <[ref := df]> (frames s);
     all_measurements := all_measurements s;
     warnings := warnings s |}.

(** The loop over [measurement_dict.items()].  A reference to no record
    cannot be handed out in Python; the case is there for totality. *)
Fixpoint measure_loop (epoch : option nat) (mdl : Mdl)
    (items : list (string * measurer)) (s : state) : state * result () :=
  match items with
  | [] => (s, Ok ())
  | (measurement_id, m) :: rest =>
      let '(ref, objs', cache, frames') :=
        m mdl (objs s) (shared_cache s) (frames s) in
      let s := {| objs := objs'; shared_cache := cache; frames := frames';
                  all_measurements := all_measurements s;
                  warnings := warnings s |} in
      match frames' !! ref with
      | None => (s, Raise (OtherError "no record"))
      | Some measurement_result_df =>
          if negb (bool_decide ("value" ∈ Measure.columns measurement_result_df)
                   || (length (Measure.rows measurement_result_df) =? 0))
          then (s, Raise AssertionError)
          else if length (Measure.rows measurement_result_df) =? 0 then
            measure_loop epoch mdl rest (warn measurement_id s)
          else
            match epoch with
            | Some e =>
                match Measure.insert0 "epoch" (Measure.Epoch e)
                        measurement_result_df with
                | Raise err => (s, Raise err)
                | Ok stamped =>
                    measure_loop epoch mdl rest
                      (bind measurement_id ref (put ref stamped s))
                end
            | None => measure_loop epoch mdl rest (bind measurement_id ref s)
            end
      end
  end.

(** What [logger.write_to_measurements] persists: the records as they are
    when it is called. *)
Definition snapshot (h : heap) (all : list (string * nat))
  : list (string * Measure.DataFrame V) :=
  (λ kv, (kv.1, default {| Measure.columns := []; Measure.rows := [] |}
                        (h !! kv.2))) <$> all.

Record world := {
  wrapped_model : Mdl;
  checkpoints : gmap string (nat * Mdl);
  (** what the measurer objects keep, and the records alive *)
  measurer_objs : Obj;
  records : heap;
  (** what [logger.write_to_measurements] received, in order *)
  written : list (list (string * Measure.DataFrame V));
  warned : list string;
}.

Context (measures : list (string * measurer)).
Context (fresh : Cache).

(** Modelled from the spec: [Logger.load_model] with [ret_model] only: the
    model saved in the file, and the epoch saved with it. *)
Definition load_model (path : string) (w : world) : world * result nat :=
  match checkpoints w !! path with
  | Some (epoch, mdl) =>
      ({| wrapped_model := mdl; checkpoints := checkpoints w;
          measurer_objs := measurer_objs w; records := records w;
          written := written w; warned := warned w |}, Ok epoch)
  | None => (w, Raise FileNotFoundError)
  end.

(** [do_measurements(epoch=epoch)]: the cache is new, the measurer objects
    and the records are those of the process. *)
Definition do_measurements (epoch : option nat) (w : world) : world * result () :=
  match measure_loop epoch (wrapped_model w) measures
          {| objs := measurer_objs w; shared_cache := fresh;
             frames := records w; all_measurements := []; warnings := [] |} with
  | (s, Ok _) =>
      ({| wrapped_model := wrapped_model w; checkpoints := checkpoints w;
          measurer_objs := objs s; records := frames s;
          written := written w ++ [snapshot (frames s) (all_measurements s)];
          warned := warned w ++ warnings s |}, Ok ())
  | (s, Raise err) =>
      ({| wrapped_model := wrapped_model w; checkpoints := checkpoints w;
          measurer_objs := objs s; records := frames s;
          written := written w;
          warned := warned w ++ warnings s |}, Raise err)
  end.

(** The loop [for model_checkpoint_path in model_path_list]. *)
Fixpoint measure_all (model_path_list : list string) (w : world)
  : world * result () :=
  match model_path_list with
  | [] => (w, Ok ())
  | model_checkpoint_path :: rest =>
      match load_model model_checkpoint_path w with
      | (w, Raise err) => (w, Raise err)
      | (w, Ok epoch) =>
          match do_measurements (Some epoch) w with
          | (w, Raise err) => (w, Raise err)
          | (w, Ok _) => measure_all rest w
          end
      end
  end.

(** [do_measurements_on_checkpoints], given what
    [get_all_saved_model_paths] returned. *)
Definition do_measurements_on_checkpoints (model_path_list : list string)
    (w : world) : world * result () :=
  match Sched.visit_order model_path_list with
  | None => (w, Raise ValueError)
  | Some order => measure_all order w
  end.

(** A measurer that makes its record anew at every call and leaves the
    other records alone; a record with rows has [value] and no [epoch]
    yet. *)
Definition hands_out_new (m : measurer) : Prop :=
  ∀ mdl o cache h, ∃ ref df o' cache',
    m mdl o cache h = (ref, o', cache', <[ref := df]> h) ∧ h !! ref = None ∧
    (Measure.rows df ≠ [] →
     "value" ∈ Measure.columns df ∧ "epoch" ∉ Measure.columns df).

(** A measurer that keeps one record and hands it out at every call. *)
Definition hands_out_again (ref : nat) (m : measurer) : Prop :=
  ∀ mdl o cache h, m mdl o cache h = (ref, o, cache, h).

End with_measurers.
Arguments world : clear implicits.
Arguments state : clear implicits.
Arguments measurer : clear implicits.
End Shared.

(** Measurers for the shared store: one that makes a record of the model and
    the cache at every call, one that hands out the record at reference 0. *)

Module EdgeShared.

Definition making : Shared.measurer nat nat nat () :=
  λ mdl o cache h,
    (fresh (dom h), o, S cache,
     <[fresh (dom h) := {| Measure.columns := ["value"];
                            Measure.rows := [[Measure.Val (mdl + cache)]] |}]> h).

Definition keeping : Shared.measurer nat nat nat () :=
  λ mdl o cache h, (0, o, cache, h).

Definition kept : Measure.DataFrame nat :=
  {| Measure.columns := ["value"]; Measure.rows := [[Measure.Val 7]] |}.

(** The checkpoints of [Edge.shelf], with the record of [keeping] alive. *)
Definition shelf : Shared.world nat nat () :=
  {| Shared.wrapped_model := 0;
     Shared.checkpoints := Campaign.checkpoints Edge.shelf;
     Shared.measurer_objs := ();
     Shared.records := {[0 := kept]};
     Shared.written := [];
     Shared.warned := [] |}.

End EdgeShared.

(** ** Boolean filters that keep at most one element *)

Section filter_facts.
Context {A : Type} (f : A → bool).

Lemma filter_all_miss l :
  Forall (λ x, f x = false) l →
  List.filter f l = [] ∧ List.filter (λ x, negb (f x)) l = l.
Proof.
  induction 1 as [|x l Hx _ [IH1 IH2]]; [done|]. simpl.
  rewrite Hx. simpl. by rewrite IH1, IH2.
Qed.

Lemma filter_nil_miss l :
  List.filter f l = [] → Forall (λ x, f x = false) l.
Proof.
  induction l as [|x l IH]; simpl; [constructor|].
  destruct (f x) eqn:E; [done|]. intros H. constructor; auto.
Qed.

Lemma filter_single_split l x :
  List.filter f l = [x] →
  ∃ t1 t2, l = t1 ++ x :: t2 ∧ f x = true ∧
           Forall (λ y, f y = false) t1 ∧ Forall (λ y, f y = false) t2.
Proof.
  induction l as [|y l IH]; simpl; [done|].
  destruct (f y) eqn:E.
  - intros [= -> Hl]. exists [], l. repeat split; auto using filter_nil_miss.
  - intros (t1 & t2 & -> & Hx & H1 & H2)%IH.
    exists (y :: t1), t2. repeat split; auto.
Qed.

Lemma filter_short_cases l :
  length (List.filter f l) ≤ 1 →
  List.filter f l = [] ∨ ∃ x, List.filter f l = [x].
Proof.
  destruct (List.filter f l) as [|x [|y r]]; simpl; [auto|eauto|lia].
Qed.

End filter_facts.

(** ** Properties of the scheduler's list rewriting *)

Section scan_facts.
Variable suffix : string.

Local Abbreviation miss := (λ p : string, PyStr.endswith p suffix = false).

Lemma scan_unfold fuel i l :
  Sched.scan suffix fuel i l =
  match l !! i with
  | None => Some l
  | Some path =>
      match fuel with
      | 0 => None
      | S fuel' =>
          if PyStr.endswith path suffix then
            l' ← Sched.list_remove path l;
            Sched.scan suffix fuel' (S i) (l' ++ [path])
          else Sched.scan suffix fuel' (S i) l
      end
  end.
Proof. by destruct fuel. Qed.

Lemma list_remove_middle x d t :
  x ∉ d → Sched.list_remove x (d ++ x :: t) = Some (d ++ t).
Proof.
  induction d as [|y d IH]; intros Hx; simpl.
  - by rewrite String.eqb_refl.
  - apply not_elem_of_cons in Hx as [Hxy Hd].
    apply String.eqb_neq in Hxy. rewrite Hxy, (IH Hd). done.
Qed.

Lemma list_remove_lookup l i x :
  l !! i = Some x → ∃ l', Sched.list_remove x l = Some l' ∧ length l' + 1 = length l.
Proof.
  revert i. induction l as [|y l IH]; intros i Hi; [done|]. simpl.
  destruct (String.eqb x y) eqn:E.
  - eexists; split; [done|lia].
  - destruct i as [|i]; simpl in Hi.
    + simplify_eq. by rewrite String.eqb_refl in E.
    + destruct (IH _ Hi) as (l' & -> & Hlen). eexists; split; [done|].
      simpl. lia.
Qed.

(** The loop always ends normally and keeps the length of the list. *)
Lemma scan_total fuel i l :
  length l ≤ fuel + i →
  ∃ l', Sched.scan suffix fuel i l = Some l' ∧ length l' = length l.
Proof.
  revert i l. induction fuel as [|fuel IH]; intros i l Hlen; rewrite scan_unfold.
  - rewrite lookup_ge_None_2 by lia. eauto.
  - destruct (l !! i) as [x|] eqn:Hi; [|eauto].
    destruct (PyStr.endswith x suffix).
    + destruct (list_remove_lookup _ _ _ Hi) as (l1 & -> & Hl1). simpl.
      destruct (IH (S i) (l1 ++ [x])) as (l' & -> & Hl').
      { rewrite length_app. simpl. lia. }
      eexists; split; [done|]. rewrite Hl', length_app. simpl. lia.
    + apply IH. lia.
Qed.

Lemma scan_all_miss fuel d t :
  Forall miss t → length t ≤ fuel →
  Sched.scan suffix fuel (length d) (d ++ t) = Some (d ++ t).
Proof.
  revert fuel d. induction t as [|x t IH]; intros fuel d Hm Hf;
    rewrite scan_unfold.
  - rewrite lookup_ge_None_2; [done|]. rewrite length_app. simpl. lia.
  - rewrite list_lookup_middle by done.
    destruct fuel as [|fuel]; [simpl in Hf; lia|].
    apply Forall_cons in Hm as [-> Hm].
    specialize (IH fuel (d ++ [x]) Hm).
    rewrite length_app, <-(assoc_L (++)) in IH. simpl in IH.
    rewrite Nat.add_1_r in IH. apply IH. simpl in Hf. lia.
Qed.

Lemma snoc_shift (d : list string) y t :
  d ++ y :: t = (d ++ [y]) ++ t ∧ S (length d) = length (d ++ [y]).
Proof. rewrite <-app_assoc, length_app. simpl. split; [done|lia]. Qed.

(** A single matching path that already sits at the back stays there. *)
Lemma scan_hit_last fuel d t x :
  x ∉ d ++ t → Forall miss t → length t < fuel →
  Sched.scan suffix fuel (length d) (d ++ t ++ [x]) = Some (d ++ t ++ [x]).
Proof.
  revert fuel d. induction t as [|y t IH]; intros fuel d Hx Hm Hf;
    rewrite scan_unfold.
  - simpl. rewrite list_lookup_middle by done.
    destruct fuel as [|fuel]; [lia|].
    rewrite app_nil_r in Hx.
    destruct (PyStr.endswith x suffix).
    + rewrite list_remove_middle by done. simpl. rewrite app_nil_r.
      rewrite scan_unfold, lookup_ge_None_2; [done|].
      rewrite length_app. simpl. lia.
    + rewrite scan_unfold, lookup_ge_None_2; [done|].
      rewrite length_app. simpl. lia.
  - simpl. rewrite list_lookup_middle by done.
    destruct fuel as [|fuel]; [lia|].
    apply Forall_cons in Hm as [-> Hm].
    destruct (snoc_shift d y (t ++ [x])) as [-> ->].
    apply IH; [|done|simpl in Hf; lia].
    by rewrite <-app_assoc.
Qed.

(** A single matching path is moved behind all the others, which keep their
    order. *)
Lemma scan_one_hit fuel d t1 t2 x :
  PyStr.endswith x suffix = true →
  x ∉ d ++ t1 ++ t2 → Forall miss t1 → Forall miss t2 →
  length t1 + length t2 < fuel →
  Sched.scan suffix fuel (length d) (d ++ t1 ++ x :: t2)
  = Some (d ++ t1 ++ t2 ++ [x]).
Proof.
  revert fuel d. induction t1 as [|y t1 IH]; intros fuel d Hhit Hx Hm1 Hm2 Hf;
    rewrite scan_unfold.
  - simpl in *. rewrite list_lookup_middle by done.
    destruct fuel as [|fuel]; [lia|]. rewrite Hhit.
    rewrite list_remove_middle by (intros ?; apply Hx; set_solver).
    simpl. rewrite <-(assoc_L (++)).
    destruct t2 as [|z t2].
    + simpl. rewrite scan_unfold, lookup_ge_None_2; [done|].
      rewrite length_app. simpl. lia.
    + simpl. destruct (snoc_shift d z (t2 ++ [x])) as [-> ->].
      apply Forall_cons in Hm2 as [Hz Hm2].
      apply scan_hit_last; [|done|simpl in Hf; lia].
      rewrite <-app_assoc. done.
  - simpl. rewrite list_lookup_middle by done.
    destruct fuel as [|fuel]; [lia|].
    apply Forall_cons in Hm1 as [-> Hm1].
    destruct (snoc_shift d y (t1 ++ x :: t2)) as [-> ->].
    rewrite (IH fuel (d ++ [y])); [|done| |done|done|simpl in Hf; lia].
    + by rewrite <-app_assoc.
    + by rewrite <-app_assoc.
Qed.

(** With at most one matching path in a duplicate-free list, one pass is a
    stable partition: the paths that do not match, then the one that does. *)
Lemma scan_partition l :
  NoDup l →
  length (List.filter (λ p, PyStr.endswith p suffix) l) ≤ 1 →
  Sched.scan suffix (length l) 0 l
  = Some (List.filter (λ p, negb (PyStr.endswith p suffix)) l
          ++ List.filter (λ p, PyStr.endswith p suffix) l).
Proof.
  intros Hnd Hlen.
  destruct (filter_short_cases _ _ Hlen) as [Hnil|[x Hx]].
  - pose proof (filter_nil_miss _ _ Hnil) as Hm.
    destruct (filter_all_miss _ _ Hm) as [-> ->]. rewrite app_nil_r.
    by apply (scan_all_miss _ []).
  - destruct (filter_single_split _ _ _ Hx) as (t1 & t2 & -> & Hhit & H1 & H2).
    rewrite !List.filter_app. simpl. rewrite Hhit. simpl.
    destruct (filter_all_miss _ _ H1) as [-> ->].
    destruct (filter_all_miss _ _ H2) as [-> ->]. simpl.
    apply NoDup_app in Hnd as (_ & Hd1 & Hd2).
    apply NoDup_cons in Hd2 as [Hd2 _].
    rewrite (scan_one_hit _ [] t1 t2 x); [simpl; by rewrite app_assoc|done| |done|done|].
    + simpl. intros [?|?]%elem_of_app; [|done]. eapply Hd1; [done|]. left.
    + rewrite length_app. simpl. lia.
Qed.

End scan_facts.

(** ** The outer loop as a sequence of stable partitions *)

Section regroup.
Context {A : Type}.
Implicit Types (h g : A → bool) (l : list A).

Lemma partition_Permutation h l :
  List.filter (λ x, negb (h x)) l ++ List.filter h l ≡ₚ l.
Proof.
  induction l as [|x l IH]; [done|]. simpl. destruct (h x); simpl.
  - by rewrite <-Permutation_middle, IH.
  - by rewrite IH.
Qed.

Lemma filter_filter_disjoint g h l :
  (∀ x, x ∈ l → g x = true → h x = false) →
  List.filter g (List.filter h l) = [] ∧
  List.filter g (List.filter (λ x, negb (h x)) l) = List.filter g l.
Proof.
  induction l as [|x l IH]; intros Hd; [done|].
  assert (∀ y, y ∈ l → g y = true → h y = false) as [IH1 IH2]%IH.
  { intros y Hy. apply Hd. by right. }
  simpl. destruct (h x) eqn:Eh; simpl.
  - destruct (g x) eqn:Eg; [|done].
    rewrite Hd in Eh; [done|left|done].
  - destruct (g x); simpl; by rewrite ?IH1, ?IH2.
Qed.

Lemma filter_partition_disjoint g h l :
  (∀ x, x ∈ l → g x = true → h x = false) →
  List.filter g (List.filter (λ x, negb (h x)) l ++ List.filter h l)
  = List.filter g l.
Proof.
  intros Hd. destruct (filter_filter_disjoint g h l Hd) as [H1 H2].
  by rewrite List.filter_app, H1, H2, app_nil_r.
Qed.

Lemma filter_partition_rest g h l :
  (∀ x, x ∈ l → h x = true → g x = true) →
  List.filter g (List.filter (λ x, negb (h x)) l ++ List.filter h l)
  = List.filter (λ x, negb (h x || negb (g x))) l ++ List.filter h l.
Proof.
  intros Hd. rewrite List.filter_app. f_equal.
  - clear Hd. induction l as [|x l IH]; [done|]. simpl.
    destruct (h x); simpl; destruct (g x); simpl; by rewrite IH.
  - induction l as [|x l IH]; [done|]. simpl.
    destruct (h x) eqn:Eh; simpl.
    + rewrite Hd; [|left|done]. f_equal. apply IH. intros; apply Hd; [by right|done].
    + apply IH. intros; apply Hd; [by right|done].
Qed.

Lemma flat_map_ext_elem {B} (F G : B → list A) (qs : list B) :
  (∀ q, q ∈ qs → F q = G q) → flat_map F qs = flat_map G qs.
Proof.
  induction qs as [|q qs IH]; intros HFG; [done|]. simpl.
  rewrite HFG by left. f_equal. apply IH. intros; apply HFG. by right.
Qed.

Lemma reverse_flat_map_short {B} (F : B → list A) (qs : list B) :
  (∀ q, q ∈ qs → length (F q) ≤ 1) →
  reverse (flat_map F qs) = flat_map F (reverse qs).
Proof.
  induction qs as [|q qs IH]; intros Hlen; [done|]. simpl.
  rewrite reverse_app, reverse_cons, flat_map_app, IH by (intros; apply Hlen; by right).
  simpl. rewrite app_nil_r. f_equal.
  specialize (Hlen q ltac:(left)).
  destruct (F q) as [|x [|y r]]; simpl in *; [done|done|lia].
Qed.

End regroup.

Module SchedFacts.
Import Sched.

Lemma move_to_back_total q l :
  ∃ l', Sched.move_to_back q l = Some l' ∧ length l' = length l.
Proof. apply scan_total. lia. Qed.

Lemma move_to_back_partition q l :
  NoDup l → length (List.filter (hits q) l) ≤ 1 →
  Sched.move_to_back q l
  = Some (List.filter (λ p, negb (hits q p)) l ++ List.filter (hits q) l).
Proof. apply scan_partition. Qed.

Lemma passes_partition qs l :
  NoDup qs → NoDup l → exclusive qs l →
  (∀ q, q ∈ qs → length (List.filter (hits q) l) ≤ 1) →
  foldl (λ acc epoch, acc ≫= Sched.move_to_back epoch) (Some l) qs
  = Some (List.filter (plain qs) l ++ flat_map (λ q, List.filter (hits q) l) qs).
Proof.
  revert l. induction qs as [|q qs IH]; intros l Hqs Hl Hex Hlen.
  - simpl. rewrite app_nil_r. f_equal. unfold plain. simpl. clear.
    induction l as [|x l IHl]; [done|]. simpl. by f_equal.
  - apply NoDup_cons in Hqs as [Hq Hqs]. simpl.
    rewrite move_to_back_partition by (auto; apply Hlen; left).
    set (l1 := List.filter (λ p, negb (hits q p)) l ++ List.filter (hits q) l).
    assert (Hperm : l1 ≡ₚ l) by apply partition_Permutation.
    assert (Hother : ∀ q', q' ∈ qs →
              List.filter (hits q') l1 = List.filter (hits q') l).
    { intros q' Hq'. apply filter_partition_disjoint. intros p Hp H1.
      destruct (hits q p) eqn:H2; [|done].
      assert (q' = q) as -> by (apply (Hex q' q p); by (try (by right); try left)).
      done. }
    rewrite IH; [|done|by rewrite Hperm| |].
    + rewrite (flat_map_ext_elem _ _ _ Hother). f_equal.
      unfold l1. rewrite filter_partition_rest.
      * rewrite <-app_assoc. f_equal. apply List.filter_ext. intros p.
        unfold plain. simpl. by rewrite negb_involutive.
      * intros p Hp H1. unfold plain. apply negb_true_iff, not_true_is_false.
        intros (q' & Hq'%list_elem_of_In & H2)%existsb_exists.
        assert (q' = q) as -> by (apply (Hex q' q p); by (try (by right); try left)).
        done.
    + intros a b p Ha Hb Hp. apply Hex; [by right|by right|by rewrite <-Hperm].
    + intros q' Hq'. rewrite Hother by done. apply Hlen. by right.
Qed.

End SchedFacts.

(** ** Facts about paths and suffixes *)

Module PathFacts.

Lemma app_String c a b : String c a +:+ b = String c (a +:+ b).
Proof. done. Qed.

Lemma length_app a b :
  String.length (a +:+ b) = String.length a + String.length b.
Proof. induction a as [|c a IH]; [done|]. rewrite app_String. simpl. by rewrite IH. Qed.

Lemma substring_skip a b n m :
  String.substring (String.length a + n) m (a +:+ b) = String.substring n m b.
Proof. induction a as [|c a IH]; [done|]. rewrite app_String. simpl. apply IH. Qed.

Lemma substring_all b : String.substring 0 (String.length b) b = b.
Proof. induction b as [|c b IH]; [done|]. simpl. by rewrite IH. Qed.

(** When the tail has the length of the suffix, the test compares them. *)
Lemma endswith_tail a b c :
  String.length b = String.length c →
  PyStr.endswith (a +:+ b) c = String.eqb b c.
Proof.
  intros Hlen. unfold PyStr.endswith. rewrite length_app, <-Hlen.
  replace (String.length a + String.length b - String.length b)
    with (String.length a + 0) by lia.
  rewrite substring_skip, substring_all.
  replace (String.length b <=? String.length a + String.length b) with true; [done|].
  symmetry. apply Nat.leb_le. lia.
Qed.

(** A string ends with at most one suffix of a given length. *)
Lemma endswith_same_length p s s' :
  PyStr.endswith p s = true → PyStr.endswith p s' = true →
  String.length s = String.length s' → s = s'.
Proof.
  unfold PyStr.endswith.
  intros [_ H1%String.eqb_eq]%andb_true_iff [_ H2%String.eqb_eq]%andb_true_iff Hlen.
  rewrite <-H1, <-H2. by rewrite Hlen.
Qed.

Lemma priority_suffix_length q :
  q ∈ Sched.priority_checkpoints → String.length (Ckpt.suffix q) = 7.
Proof.
  revert q. apply Forall_forall. by repeat constructor.
Qed.

Lemma priority_suffix_inj q q' :
  q ∈ Sched.priority_checkpoints → q' ∈ Sched.priority_checkpoints →
  Ckpt.suffix q = Ckpt.suffix q' → q = q'.
Proof.
  intros Hq Hq'. revert q' Hq'. revert q Hq.
  refine (proj1 (Forall_forall (λ q, ∀ q', q' ∈ _ → _ → q = q') _) _).
  repeat constructor;
    refine (proj1 (Forall_forall (λ q', _ → _ = q') _) _);
    repeat constructor; by vm_compute.
Qed.

(** The six suffix tests exclude each other on every path. *)
Lemma priority_exclusive l :
  Sched.exclusive Sched.priority_checkpoints l.
Proof.
  intros q q' p Hq Hq' _ H1 H2. apply priority_suffix_inj; [done..|].
  apply (endswith_same_length p); [done..|].
  by rewrite !priority_suffix_length.
Qed.

End PathFacts.

(** ** Checkpoint names *)

Module NameFacts.
Import Ckpt.

Lemma read_fill_zero k s : read (PyStr.fill "0" k s) = read s.
Proof.
  induction k as [|k IH]; [done|]. simpl. rewrite <-IH. unfold read. simpl.
  by destruct (DecimalString.NilEmpty.uint_of_string (PyStr.fill "0" k s)).
Qed.

(** The formatted epoch reads back as the epoch. *)
Lemma read_fmt03 n : read (PyStr.fmt03 n) = Some n.
Proof.
  unfold PyStr.fmt03, PyStr.rjust. rewrite read_fill_zero. unfold read, PyStr.str.
  rewrite DecimalString.NilEmpty.usu. simpl. f_equal. apply DecimalNat.Unsigned.of_to.
Qed.

Lemma app_inv_tail a b t : a +:+ t = b +:+ t → a = b.
Proof.
  intros Heq.
  assert (Hlen : String.length a = String.length b).
  { apply (f_equal String.length) in Heq. rewrite !PathFacts.length_app in Heq. lia. }
  revert b Heq Hlen. induction a as [|c a IH]; intros [|c' b] Heq Hlen;
    try done.
  rewrite !PathFacts.app_String in Heq. injection Heq as -> Heq.
  f_equal. apply IH; [done|]. simpl in Hlen. lia.
Qed.

Lemma suffix_inj e e' : suffix e = suffix e' → e = e'.
Proof.
  intros Heq%app_inv_tail. apply (f_equal read) in Heq.
  rewrite !read_fmt03 in Heq. congruence.
Qed.

Lemma path_suffix dir e : path dir e = dir +:+ suffix e.
Proof. done. Qed.

(** Distinct epochs have distinct checkpoint files. *)
Lemma path_inj dir e e' : path dir e = path dir e' → e = e'.
Proof.
  rewrite !path_suffix. intros Heq.
  apply (inj (String.app dir)) in Heq. by apply suffix_inj.
Qed.

Lemma suffix_length_table :
  Forall (λ e, String.length (suffix e) = 7) (seq 0 1000).
Proof. apply (bool_decide_unpack _). vm_compute. exact I. Qed.

Lemma suffix_length_below_1000 e : e < 1000 → String.length (suffix e) = 7.
Proof.
  intros He. pose proof suffix_length_table as H.
  rewrite Forall_forall in H. apply H. apply elem_of_seq. lia.
Qed.

(** Below 1000 the suffix test is an equality test on epochs. *)
Lemma hits_below_1000 dir q e :
  q < 1000 → e < 1000 →
  Sched.hits q (path dir e) = bool_decide (e = q).
Proof.
  intros Hq%suffix_length_below_1000 He%suffix_length_below_1000.
  unfold Sched.hits. rewrite path_suffix.
  rewrite PathFacts.endswith_tail by congruence.
  case_bool_decide as Heq.
  - subst. apply String.eqb_refl.
  - apply String.eqb_neq. intros Hs. by apply Heq, suffix_inj.
Qed.

Lemma compare_app_head dir a b :
  String.compare (dir +:+ a) (dir +:+ b) = String.compare a b.
Proof.
  induction dir as [|c dir IH]; [done|]. rewrite !PathFacts.app_String. simpl.
  unfold Ascii.compare. by rewrite N.compare_refl.
Qed.

Lemma le_app_head dir a b : String.le (dir +:+ a) (dir +:+ b) ↔ String.le a b.
Proof. unfold String.le, String.leb. by rewrite compare_app_head. Qed.

Lemma suffix_le_table :
  Forall (λ e, String.le (suffix e) (suffix (S e))) (seq 0 999).
Proof. apply (bool_decide_unpack _). vm_compute. exact I. Qed.

(** Below 1000 the names are ordered as the epochs are. *)
Lemma suffix_mono e e' : e ≤ e' → e' < 1000 → String.le (suffix e) (suffix e').
Proof.
  induction 1 as [|e' Hle IH]; intros He'; [done|].
  etrans; [apply IH; lia|].
  pose proof suffix_le_table as H. rewrite Forall_forall in H.
  apply H, elem_of_seq. lia.
Qed.

Lemma path_mono dir e e' :
  e ≤ e' → e' < 1000 → String.le (path dir e) (path dir e').
Proof. intros. rewrite !path_suffix. by apply le_app_head, suffix_mono. Qed.

Lemma path_le_below_1000 dir e e' :
  e < 1000 → e' < 1000 → String.le (path dir e) (path dir e') → e ≤ e'.
Proof.
  intros He He' Hle. destruct (decide (e ≤ e')) as [|Hgt]; [done|].
  assert (String.le (path dir e') (path dir e)) as Hge by (apply path_mono; lia).
  pose proof (anti_symm String.le _ _ Hle Hge) as Heq%path_inj. lia.
Qed.

Lemma priority_below_1000 q : q ∈ Sched.priority_checkpoints → q < 1000.
Proof.
  revert q. apply Forall_forall.
  unfold Sched.priority_checkpoints. repeat (apply Forall_cons; split; [lia|]).
  constructor.
Qed.

End NameFacts.

(** ** The visiting order *)

Module OrderFacts.
Import Sched.

Lemma priority_NoDup : NoDup priority_checkpoints.
Proof. apply (bool_decide_unpack _). vm_compute. exact I. Qed.

Lemma plain_reverse qs p : plain (reverse qs) p = plain qs p.
Proof.
  unfold plain. f_equal. apply Bool.eq_iff_eq_true.
  rewrite !existsb_exists. split; intros (q & Hq & Hp); exists q; split; try done.
  - by apply list_elem_of_In, elem_of_reverse, list_elem_of_In.
  - by apply list_elem_of_In, elem_of_reverse, list_elem_of_In.
Qed.

(** The scheduler never fails, whatever the list of paths. *)
Lemma visit_order_total l :
  ∃ order, visit_order l = Some order ∧ length order = length l.
Proof.
  unfold visit_order, prioritise.
  generalize (reverse priority_checkpoints). intros qs.
  assert (∃ l', foldl (λ acc epoch, acc ≫= move_to_back epoch) (Some l) qs
                = Some l' ∧ length l' = length l) as (l' & -> & Hl').
  { revert l. induction qs as [|q qs IH]; intros l; simpl; [eauto|].
    destruct (SchedFacts.move_to_back_total q l) as (l1 & -> & Hl1).
    destruct (IH l1) as (l' & -> & Hl'). eexists; split; [done|congruence]. }
  eexists; split; [done|]. by rewrite length_reverse.
Qed.

(** When every priority suffix is matched by at most one path, the paths that
    match come first, in the order of the priority list, and the others
    follow in reverse listing order. *)
Lemma visit_order_partition l :
  NoDup l →
  (∀ q, q ∈ priority_checkpoints → length (List.filter (hits q) l) ≤ 1) →
  visit_order l
  = Some (flat_map (λ q, List.filter (hits q) l) priority_checkpoints
          ++ reverse (List.filter (plain priority_checkpoints) l)).
Proof.
  intros Hl Hlen. unfold visit_order, prioritise.
  rewrite SchedFacts.passes_partition.
  - cbn [fmap option_fmap option_map]. f_equal.
    rewrite reverse_app, reverse_flat_map_short, reverse_involutive.
    + f_equal. f_equal. apply List.filter_ext. intros p. apply plain_reverse.
    + intros q Hq%elem_of_reverse. by apply Hlen.
  - rewrite reverse_Permutation. apply priority_NoDup.
  - done.
  - intros q q' p Hq%elem_of_reverse Hq'%elem_of_reverse.
    by apply PathFacts.priority_exclusive.
  - intros q Hq%elem_of_reverse. by apply Hlen.
Qed.

End OrderFacts.

(** ** Ascending listings of epochs below 1000 *)

Section list_bridges.
Context {A : Type}.

Lemma filter_bool_decide (P : A → Prop) `{∀ x, Decision (P x)} (l : list A) :
  List.filter (λ x, bool_decide (P x)) l = filter P l.
Proof.
  induction l as [|x l IH]; [done|]. simpl. rewrite filter_cons, IH.
  by case_bool_decide; case_decide.
Qed.

Lemma filter_fmap_bool {B} (f : B → A) (g : A → bool) (h : B → bool) (l : list B) :
  (∀ x, x ∈ l → g (f x) = h x) →
  List.filter g (f <$> l) = f <$> List.filter h l.
Proof.
  induction l as [|x l IH]; intros Hgh; [done|].
  rewrite fmap_cons. cbn [List.filter].
  rewrite Hgh by left. rewrite IH by (intros; apply Hgh; by right).
  by destruct (h x).
Qed.

Lemma flat_map_fmap {B C} (f : B → C) (g : A → list B) (qs : list A) :
  flat_map (λ q, f <$> g q) qs = f <$> flat_map g qs.
Proof.
  induction qs as [|q qs IH]; [done|]. simpl. by rewrite fmap_app, IH.
Qed.

Lemma filter_eq_NoDup `{EqDecision A} (q : A) (l : list A) :
  NoDup l →
  List.filter (λ e, bool_decide (e = q)) l = if decide (q ∈ l) then [q] else [].
Proof.
  induction 1 as [|x l Hx Hl IH]; [done|]. simpl. rewrite IH.
  case_bool_decide as Hxq.
  - subst. rewrite (decide_False (P := q ∈ l)) by done.
    by rewrite decide_True by left.
  - destruct (decide (q ∈ l)) as [Hq|Hq].
    + rewrite decide_True; [done|by right].
    + rewrite decide_False; [done|]. intros [?|?]%elem_of_cons; by subst.
Qed.

Lemma flat_map_member `{EqDecision A} (l qs : list A) :
  flat_map (λ q, if decide (q ∈ l) then [q] else []) qs = filter (.∈ l) qs.
Proof.
  induction qs as [|q qs IH]; [done|]. simpl. rewrite filter_cons, IH.
  by case_decide.
Qed.

End list_bridges.

Section descending.

Lemma StronglySorted_lt_NoDup (l : list nat) : StronglySorted lt l → NoDup l.
Proof.
  induction 1 as [|x l _ IH Hx]; constructor; [|done].
  intros Hin. rewrite Forall_forall in Hx. specialize (Hx _ Hin). lia.
Qed.

Lemma StronglySorted_lt_filter (P : nat → Prop) `{∀ x, Decision (P x)} l :
  StronglySorted lt l → StronglySorted lt (filter P l).
Proof.
  induction 1 as [|x l _ IH Hx]; [constructor|].
  rewrite filter_cons. case_decide; [|done]. constructor; [done|].
  rewrite Forall_forall in Hx |- *.
  intros y [_ Hy]%list_elem_of_filter. by apply Hx.
Qed.

Lemma StronglySorted_lt_reverse (l : list nat) :
  StronglySorted lt l → StronglySorted (flip le) (reverse l).
Proof.
  induction 1 as [|x l _ IH Hx]; [constructor|].
  rewrite reverse_cons. apply StronglySorted_app_2; [|done|repeat constructor].
  intros a b Ha ->%list_elem_of_singleton. rewrite elem_of_reverse in Ha.
  rewrite Forall_forall in Hx. specialize (Hx _ Ha). unfold flip. lia.
Qed.

(** Reversing an ascending list sorts it in descending order. *)
Lemma reverse_is_sort_descending (l : list nat) :
  StronglySorted lt l → merge_sort (flip le) l = reverse l.
Proof.
  intros Hl.
  assert (Transitive (flip le)) by (intros a b c; unfold flip; lia).
  assert (Total (flip le)) by (intros a b; unfold flip; lia).
  apply (StronglySorted_unique_strong (flip le)).
  - intros a b _ _. unfold flip. lia.
  - by apply StronglySorted_merge_sort.
  - by apply StronglySorted_lt_reverse.
  - by rewrite merge_sort_Permutation, reverse_Permutation.
Qed.

End descending.

(** ** The scheduler on listings of epochs *)

Module SchedClaims.
Import Sched.

Lemma plain_below_1000 dir e :
  e < 1000 →
  plain priority_checkpoints (Ckpt.path dir e)
  = bool_decide (e ∉ priority_checkpoints).
Proof.
  intros He. unfold plain. case_bool_decide as Hin.
  - apply negb_true_iff, not_true_is_false.
    intros (q & Hq%list_elem_of_In & Hhit)%existsb_exists.
    rewrite NameFacts.hits_below_1000 in Hhit
      by auto using NameFacts.priority_below_1000.
    apply bool_decide_eq_true in Hhit. by subst.
  - apply negb_false_iff, existsb_exists.
    exists e. split; [by apply list_elem_of_In|].
    rewrite NameFacts.hits_below_1000
      by auto using NameFacts.priority_below_1000.
    by apply bool_decide_eq_true.
Qed.

Lemma pulled_app_l group rest p :
  p ∈ group → Forall (λ x, plain priority_checkpoints x = false) group →
  pulled (group ++ rest) p = true.
Proof.
  induction group as [|x group IH]; intros Hp Hg; [by apply elem_of_nil in Hp|].
  apply Forall_cons in Hg as [Hx Hg]. simpl.
  destruct (String.eqb x p) eqn:E; [done|]. rewrite Hx. simpl.
  apply IH; [|done]. apply elem_of_cons in Hp as [->|?]; [|done].
  by rewrite String.eqb_refl in E.
Qed.

(** X18: where the code keeps the stated order.  For checkpoints named to
    width three whose epochs are all below 1000, listed in ascending order,
    [do_measurements_on_checkpoints] visits the saved priority epochs first,
    in descending priority value, and then the remaining checkpoints in
    descending epoch order. *)
Theorem visit_order_below_1000 dir epochs :
  StronglySorted lt epochs → Forall (λ e, e < 1000) epochs →
  visit_order (Ckpt.path dir <$> epochs)
  = Some (Ckpt.path dir <$> Spec.visit_epochs epochs).
Proof.
  intros Hsorted Hsmall. rewrite Forall_forall in Hsmall.
  pose proof (StronglySorted_lt_NoDup _ Hsorted) as Hnd.
  assert (Hhits : ∀ q, q ∈ priority_checkpoints →
            List.filter (hits q) (Ckpt.path dir <$> epochs)
            = Ckpt.path dir <$> (if decide (q ∈ epochs) then [q] else [])).
  { intros q Hq. rewrite <-filter_eq_NoDup by done.
    apply filter_fmap_bool. intros e He.
    apply NameFacts.hits_below_1000; auto using NameFacts.priority_below_1000. }
  rewrite OrderFacts.visit_order_partition.
  - f_equal. unfold Spec.visit_epochs.
    rewrite fmap_app, (flat_map_ext_elem _ _ _ Hhits), flat_map_fmap, flat_map_member.
    f_equal.
    rewrite (filter_fmap_bool _ _ (λ e, bool_decide (e ∉ priority_checkpoints)))
      by (intros e He; apply plain_below_1000; auto).
    rewrite filter_bool_decide, <-fmap_reverse. f_equal.
    symmetry. by apply reverse_is_sort_descending, StronglySorted_lt_filter.
  - apply NoDup_fmap_2_strong; [|done]. intros e e' _ _. apply NameFacts.path_inj.
  - intros q Hq. rewrite Hhits by done. rewrite length_fmap.
    case_decide; simpl; lia.
Qed.

(** The ordering property of the specification, on its own checkpoints. *)
Lemma visit_order_spec_example :
  visit_order (Ckpt.path "models/" <$> [0; 1; 5; 10; 50; 100; 300; 600])
  = Some (Ckpt.path "models/" <$> [600; 300; 100; 10; 1; 0; 50; 5]).
Proof.
  apply (visit_order_below_1000 "models/" [0; 1; 5; 10; 50; 100; 300; 600]).
  - apply (bool_decide_unpack _). vm_compute. exact I.
  - apply (bool_decide_unpack _). vm_compute. exact I.
Defined.

(** With epochs from 1000 on, the three-digit suffixes collide and the scan
    skips the path that follows a moved one: the checkpoints of epochs 1000,
    2000 and 2005 are visited as 1000, 2005, 2000, not in the stated order
    2005, 2000, 1000 (names of width three; other widths are in
    [SchedPadded]). *)
Lemma visit_order_from_1000_differs :
  visit_order (Ckpt.path "models/" <$> [1000; 2000; 2005])
  = Some (Ckpt.path "models/" <$> [1000; 2005; 2000]) ∧
  visit_order (Ckpt.path "models/" <$> [1000; 2000; 2005])
  ≠ Some (Ckpt.path "models/" <$> Spec.visit_epochs [1000; 2000; 2005]).
Proof. split; [by vm_compute|]. vm_compute. intros [=]. Qed.

(** X21: a saved checkpoint whose file name ends with the three-digit form
    of a priority epoch, whatever its own epoch (1100 against 100), is
    measured in the priority group, before every checkpoint that matches no
    priority epoch, when no priority suffix is matched by two of the listed
    paths (then the scan has nothing to skip). *)
Theorem suffix_match_pulled dir epochs e q :
  NoDup epochs → e ∈ epochs → q ∈ priority_checkpoints →
  hits q (Ckpt.path dir e) = true →
  (∀ q', q' ∈ priority_checkpoints →
     length (List.filter (hits q') (Ckpt.path dir <$> epochs)) ≤ 1) →
  ∃ order, visit_order (Ckpt.path dir <$> epochs) = Some order ∧
           pulled order (Ckpt.path dir e) = true.
Proof.
  intros Hnd He Hq Hhit Hone. eexists. split.
  - apply OrderFacts.visit_order_partition; [|done].
    apply NoDup_fmap_2_strong; [|done]. intros a b _ _. apply NameFacts.path_inj.
  - apply pulled_app_l.
    + rewrite list_elem_of_In, in_flat_map. exists q.
      rewrite filter_In, <-!list_elem_of_In.
      split; [done|split; [|done]]. apply list_elem_of_fmap. eauto.
    + apply Forall_forall. intros x Hx.
      rewrite list_elem_of_In, in_flat_map in Hx.
      destruct Hx as (q' & Hq' & [_ Hx]%filter_In).
      unfold plain. apply negb_false_iff, existsb_exists. eauto.
Qed.

Lemma suffix_match_pulled_1100 :
  ∃ order, visit_order (Ckpt.path "models/" <$> [5; 1100; 1105]) = Some order ∧
           pulled order (Ckpt.path "models/" 1100) = true.
Proof.
  apply (suffix_match_pulled "models/" [5; 1100; 1105] 1100 100).
  - apply (bool_decide_unpack _). vm_compute. exact I.
  - apply (bool_decide_unpack _). vm_compute. exact I.
  - apply (bool_decide_unpack _). vm_compute. exact I.
  - vm_compute. reflexivity.
  - refine (proj1 (Forall_forall (λ q', length (List.filter (hits q') _) ≤ 1) _) _).
    apply (bool_decide_unpack _). vm_compute. exact I.
Defined.

(** A suffix match that directly follows another one in the list is skipped
    by the scan: with checkpoints 100, 1100 and 1105 the path of epoch 1100
    ends with [100.tar] and yet is measured last, after epoch 1105, which
    matches no priority epoch. *)
Lemma suffix_match_skipped :
  hits 100 (Ckpt.path "models/" 1100) = true ∧
  visit_order (Ckpt.path "models/" <$> [100; 1100; 1105])
  = Some (Ckpt.path "models/" <$> [100; 1105; 1100]) ∧
  pulled (Ckpt.path "models/" <$> [100; 1105; 1100]) (Ckpt.path "models/" 1100)
  = false.
Proof. by vm_compute. Qed.

End SchedClaims.


(** ** The trainer: what one call does to state, files and log *)

Module TrainFacts.
Import Train.
Section facts.
Context {St Batch : Type} `{Trainable St Batch}.
Implicit Types (w : world St) (x : experiment Batch).
Implicit Types (evs : list (event St)).

Lemma quiet_nil : quiet (St := St) [].
Proof. intros k Hk. by apply elem_of_nil in Hk. Qed.

Lemma quiet_app evs1 evs2 : quiet (evs1 ++ evs2) ↔ quiet evs1 ∧ quiet evs2.
Proof.
  unfold quiet. setoid_rewrite elem_of_app. split.
  - intros Hq. split; intros k Hk; apply (Hq k); auto.
  - intros [H1 H2] k [Hk|Hk]; [by apply (H1 k)|by apply (H2 k)].
Qed.

Lemma quiet_singleton (ev : event St) :
  (∀ k, ev ≠ Stepped k true) → quiet [ev].
Proof. intros Hev k Hk%list_elem_of_singleton. by apply (Hev k). Qed.

(** In a list that ends with its only not-a-number step, that step is found
    at no other place. *)
Lemma nan_step_last pre pre' post' (ev : event St) k :
  quiet pre → pre ++ [ev] = pre' ++ Stepped k true :: post' →
  pre' = pre ∧ ev = Stepped k true ∧ post' = [].
Proof.
  revert pre'. induction pre as [|y pre IH]; intros pre' Hq Heq.
  - destruct pre' as [|y' pre']; simplify_eq/=; [done|].
    by destruct pre'.
  - destruct pre' as [|y' pre']; simplify_eq/=.
    + exfalso. apply (Hq k). left.
    + destruct (IH pre') as (-> & -> & ->); [|done|done].
      intros k' Hk'. apply (Hq k'). by right.
Qed.

(** The batch loop: it writes no file, logs one step per batch taken, and
    agrees with [batches_state] on the state. *)
Lemma batch_loop_spec e bs c n w w' r :
  batch_loop e bs c n w = (w', r) →
  files w' = files w ∧
  ∃ evs, log w' = log w ++ evs ∧
    (∀ ev, ev ∈ evs → ∃ b, ev = Stepped e b) ∧
    match r with
    | Ok (_, n') =>
        quiet evs ∧
        batches_state bs n (model w) = (if n' =? 0 then None else Some (model w'))
    | Raise err =>
        batches_state bs n (model w) = None ∧
        if err is RuntimeError
        then ∃ pre, evs = pre ++ [Stepped e true] ∧ quiet pre
        else quiet evs
    end.
Proof.
  revert c n w. induction bs as [|b bs IH]; intros c n w Hrun; simpl in Hrun.
  - injection Hrun as <- <-. split; [done|]. exists [].
    rewrite app_nil_r. split; [done|]. split; [by intros ? ?%elem_of_nil|].
    split; [apply quiet_nil|done].
  - destruct (gradient_step (model w) b) as [[st nan] correct] eqn:Hstep.
    assert (Hbs : batches_state (b :: bs) n (model w)
                  = if nan || (batch_len b =? 0) then None
                    else batches_state bs (n + batch_len b) st).
    { simpl. by rewrite Hstep. }
    rewrite Hbs. clear Hbs. destruct nan.
    { injection Hrun as <- <-. split; [done|]. exists [Stepped e true].
      split; [done|]. split; [intros ? ->%list_elem_of_singleton; eauto|].
      split; [done|]. exists []. split; [done|apply quiet_nil]. }
    simpl. destruct (batch_len b =? 0) eqn:Hlen.
    { injection Hrun as <- <-. split; [done|]. exists [Stepped e false].
      split; [done|]. split; [intros ? ->%list_elem_of_singleton; eauto|].
      split; [done|]. by apply quiet_singleton. }
    apply IH in Hrun as (Hfiles & evs & Hlog & Hsteps & Hr).
    split; [done|]. exists (Stepped e false :: evs). simpl in Hlog.
    rewrite Hlog, <-app_assoc. split; [done|]. split.
    { intros ev [->|?]%elem_of_cons; eauto. }
    assert (Hq : ∀ l : list (event St), quiet l → quiet (Stepped e false :: l)).
    { intros l Hq. apply (quiet_app [_]). split; [by apply quiet_singleton|done]. }
    destruct r as [[c' n']|err]; simpl in Hr.
    + destruct Hr as [? ?]. by split; [apply Hq|].
    + destruct Hr as [? Herr]. split; [done|].
      destruct err; try by apply Hq.
      destruct Herr as (pre & -> & Hpre). exists (Stepped e false :: pre).
      split; [done|by apply Hq].
Qed.

Lemma train_single_epoch_spec x e w w' r :
  _train_single_epoch x e w = (w', r) →
  files w' = files w ∧
  ∃ evs, log w' = log w ++ evs ∧
    (∀ ev, ev ∈ evs → ∃ b, ev = Stepped e b) ∧
    match r with
    | Ok _ =>
        quiet evs ∧ batches_state (train_loader x) 0 (model w) = Some (model w')
    | Raise err =>
        batches_state (train_loader x) 0 (model w) = None ∧
        if err is RuntimeError
        then ∃ pre, evs = pre ++ [Stepped e true] ∧ quiet pre
        else quiet evs
    end.
Proof.
  unfold _train_single_epoch.
  destruct (batch_loop e (train_loader x) 0 0 w) as [w1 [[c n]|err]] eqn:Hloop;
    apply batch_loop_spec in Hloop as (Hfiles & evs & Hlog & Hsteps & Hr).
  - destruct Hr as [Hq Hst]. destruct (n =? 0) eqn:Hn; intros [= <- <-];
      (split; [done|]); exists evs; repeat split; auto.
  - intros [= <- <-]. split; [done|]. exists evs. repeat split; tauto.
Qed.

Lemma replay_app x fs evs1 evs2 :
  replay x fs (evs1 ++ evs2) = replay x (replay x fs evs1) evs2.
Proof. apply foldl_app. Qed.

Lemma replay_steps x fs evs :
  (∀ ev, ev ∈ evs → ∃ e b, ev = Stepped e b) → replay x fs evs = fs.
Proof.
  induction evs as [|ev evs IH]; intros Hsteps; [done|].
  destruct (Hsteps ev) as (e & b & ->); [left|]. simpl.
  apply IH. intros ev Hev. apply Hsteps. by right.
Qed.

(** The conditional save at the head of the loop body. *)
Lemma maybe_save_spec x e w :
  ∃ sv,
    let w1 := if bool_decide (e ∈ log_epochs x) then save_model x e w else w in
    model w1 = model w ∧ log w1 = log w ++ sv ∧
    files w1 = replay x (files w) sv ∧
    (sv = [] ∧ e ∉ log_epochs x ∨ sv = [Saved e (model w)] ∧ e ∈ log_epochs x).
Proof.
  case_bool_decide.
  - exists [Saved e (model w)]. simpl. split_and!; try done. by right.
  - exists []. simpl. rewrite app_nil_r. split_and!; try done. by left.
Qed.

Lemma seq_S start n : seq start (S n) = start :: seq (S start) n.
Proof. done. Qed.

Lemma epoch_state_batches x st st' :
  batches_state (train_loader x) 0 st = Some st' →
  epoch_state x st = Some (lr_scheduler_step st').
Proof. unfold epoch_state. by intros ->. Qed.

Lemma after_epochs_S x n st st' :
  epoch_state x st = Some st' →
  after_epochs x (S n) st = after_epochs x n st'.
Proof. simpl. by intros ->. Qed.

Lemma after_epochs_fail x n st :
  batches_state (train_loader x) 0 st = None → after_epochs x (S n) st = None.
Proof. simpl. unfold epoch_state. by intros ->. Qed.

(** The epoch loop: log, files and state after it. *)
Lemma epoch_loop_spec x start n w w' r :
  epoch_loop x (seq start n) w = (w', r) →
  ∃ evs, log w' = log w ++ evs ∧
    files w' = replay x (files w) evs ∧
    (∀ e st, Saved e st ∈ evs → start ≤ e < start + n ∧ e ∈ log_epochs x) ∧
    match r with
    | Ok _ => quiet evs ∧ after_epochs x n (model w) = Some (model w')
    | Raise err =>
        after_epochs x n (model w) = None ∧
        if err is RuntimeError
        then ∃ pre k, evs = pre ++ [Stepped k true] ∧ quiet pre ∧
                      start ≤ k < start + n ∧
                      (∀ e st, Saved e st ∈ pre → e ≤ k)
        else quiet evs
    end.
Proof.
  revert start w. induction n as [|n IH]; intros start w Hrun.
  { simpl in Hrun. injection Hrun as <- <-. exists [].
    rewrite app_nil_r. split; [done|]. split; [done|].
    split; [by intros ?? ?%elem_of_nil|]. split; [apply quiet_nil|done]. }
  rewrite seq_S in Hrun. cbn [epoch_loop] in Hrun.
  destruct (maybe_save_spec x start w) as (sv & Hm1 & Hl1 & Hf1 & Hsv).
  cbv zeta in Hm1, Hl1, Hf1.
  set (w1 := if bool_decide (start ∈ log_epochs x)
             then save_model x start w else w) in *.
  assert (Hsvq : quiet sv).
  { destruct Hsv as [[-> _]|[-> _]]; [apply quiet_nil|by apply quiet_singleton]. }
  assert (Hsvs : ∀ e st, Saved e st ∈ sv → e = start ∧ e ∈ log_epochs x).
  { intros e st. destruct Hsv as [[-> _]|[-> ?]]; [by intros ?%elem_of_nil|].
    by intros [= -> ->]%list_elem_of_singleton. }
  destruct (_train_single_epoch x start w1) as [w2 r2] eqn:Htse.
  apply train_single_epoch_spec in Htse as (Hf2 & steps & Hl2 & Hsteps & Hr2).
  assert (Hstq : ∀ e st, Saved e st ∉ steps).
  { intros e st [b Hb]%Hsteps. done. }
  assert (Hreplay : replay x (files w) (sv ++ steps) = files w2).
  { rewrite replay_app, <-Hf1, Hf2. apply replay_steps.
    intros ev [b ->]%Hsteps. eauto. }
  destruct r2 as [acc|err].
  - destruct Hr2 as [Hq2 Hst2]. rewrite Hm1 in Hst2.
    apply IH in Hrun as (evs & Hl3 & Hf3 & Hsaved & Hr). simpl in Hl3, Hf3, Hr.
    exists (sv ++ steps ++ [LrStepped start] ++ evs).
    split; [by rewrite Hl3, Hl2, Hl1, <-!app_assoc|].
    split.
    { rewrite Hf3, <-Hreplay, !replay_app. done. }
    split.
    { intros e st [Hin|[Hin|[Hin|Hin]%elem_of_app]%elem_of_app]%elem_of_app.
      - apply Hsvs in Hin as [-> ?]. split; [lia|done].
      - by apply Hstq in Hin.
      - by apply list_elem_of_singleton in Hin.
      - apply Hsaved in Hin as [? ?]. split; [lia|done]. }
    assert (Hpreq : quiet (sv ++ steps ++ [LrStepped start])).
    { apply quiet_app. split; [done|]. apply quiet_app. split; [done|].
      by apply quiet_singleton. }
    rewrite (after_epochs_S x n _ _ (epoch_state_batches _ _ _ Hst2)).
    destruct r as [u|err].
    + destruct Hr as [Hq Hst]. split; [|done].
      rewrite !app_assoc. apply quiet_app. split; [|done].
      by rewrite <-!app_assoc.
    + destruct Hr as [Hst Herr]. split; [done|].
      destruct err; try (rewrite !app_assoc; apply quiet_app; split; [|done];
                         by rewrite <-!app_assoc).
      destruct Herr as (pre & k & -> & Hpre & Hk & Hle).
      exists (sv ++ steps ++ [LrStepped start] ++ pre), k.
      split; [by rewrite <-!app_assoc|].
      split.
      { rewrite !app_assoc. apply quiet_app. split; [|done].
        by rewrite <-!app_assoc. }
      split; [lia|].
      intros e st [Hin|[Hin|[Hin|Hin]%elem_of_app]%elem_of_app]%elem_of_app.
      * apply Hsvs in Hin as [-> ?]. lia.
      * by apply Hstq in Hin.
      * by apply list_elem_of_singleton in Hin.
      * by eapply Hle.
  - injection Hrun as <- <-. destruct Hr2 as [Hst2 Herr]. rewrite Hm1 in Hst2.
    exists (sv ++ steps). split; [by rewrite Hl2, Hl1, <-app_assoc|].
    split; [done|]. split.
    { intros e st [Hin|Hin]%elem_of_app.
      - apply Hsvs in Hin as [-> ?]. split; [lia|done].
      - by apply Hstq in Hin. }
    split; [by apply after_epochs_fail|].
    destruct err; try (apply quiet_app; by split).
    destruct Herr as (pre & -> & Hpre). exists (sv ++ pre), start.
    split; [by rewrite <-app_assoc|]. split; [apply quiet_app; by split|].
    split; [lia|].
    intros e st [Hin|Hin]%elem_of_app.
    + by apply Hsvs in Hin as [-> ?].
    + exfalso. apply (Hstq e st). apply elem_of_app. by left.
Qed.

(** What a run leaves in the log, by the way it ends: [quiet] unless it ends
    with [RuntimeError], and then the not-a-number step is the last event. *)
Lemma train_from_spec x start w w' r :
  train_from x start w = (w', r) →
  ∃ evs, log w' = log w ++ evs ∧
    files w' = replay x (files w) evs ∧
    match r with
    | Ok _ =>
        quiet evs ∧
        after_epochs x (max_epochs x - start) (model w) = Some (model w') ∧
        ∃ evs0, evs = evs0 ++ [Saved (max_epochs x) (model w')]
    | Raise err =>
        after_epochs x (max_epochs x - start) (model w) = None ∧
        if err is RuntimeError
        then ∃ pre k, evs = pre ++ [Stepped k true] ∧ quiet pre ∧
                      start ≤ k < max_epochs x ∧
                      (∀ e st, Saved e st ∈ pre → e ≤ k)
        else quiet evs
    end.
Proof.
  unfold train_from.
  destruct (epoch_loop x (seq start (max_epochs x - start)) w) as [w1 r1] eqn:Hloop.
  apply epoch_loop_spec in Hloop as (evs & Hlog & Hfiles & Hsaved & Hr1).
  destruct r1 as [u|err]; intros [= <- <-].
  - destruct Hr1 as [Hq Hst].
    exists (evs ++ [Saved (max_epochs x) (model w1)]). simpl.
    split; [by rewrite Hlog, <-app_assoc|].
    split; [by rewrite replay_app, <-Hfiles|].
    split; [apply quiet_app; split; [done|by apply quiet_singleton]|].
    split; [done|]. by exists evs.
  - destruct Hr1 as [Hst Herr]. exists evs. split; [done|]. split; [done|].
    split; [done|]. destruct err; try done.
    destruct Herr as (pre & k & -> & Hq & Hk & Hle). exists pre, k.
    split; [done|]. split; [done|]. split; [lia|done].
Qed.

Lemma train_spec x w w' r :
  train x w = (w', r) →
  ∃ evs, log w' = log w ++ evs ∧
    files w' = replay x (files w) evs ∧
    match r with
    | Raise RuntimeError =>
        ∃ pre k, evs = pre ++ [Stepped k true] ∧ quiet pre ∧
                 k < max_epochs x ∧ (∀ e st, Saved e st ∈ pre → e ≤ k)
    | _ => quiet evs
    end.
Proof.
  unfold train. destruct (latest_checkpoint_path w) as [latest|].
  - unfold load_model. destruct (files w !! latest) as [[e st]|] eqn:Hfile.
    + set (w0 := record (Loaded latest) (set_model st w)).
      destruct (max_epochs x <=? e).
      * intros [= <- <-]. exists [Loaded latest].
        split; [done|]. split; [done|]. by apply quiet_singleton.
      * intros (evs & Hlog & Hfiles & Hr)%train_from_spec.
        exists (Loaded latest :: evs). simpl in Hlog, Hfiles.
        split; [by rewrite Hlog, <-app_assoc|]. split; [done|].
        assert (Hq : ∀ l : list (event St), quiet l → quiet (Loaded latest :: l)).
        { intros l Hl. apply (quiet_app [_]). split; [by apply quiet_singleton|done]. }
        destruct r as [u|err]; [by apply Hq, Hr|].
        destruct Hr as [_ Herr]. destruct err; try by apply Hq.
        destruct Herr as (pre & k & -> & Hpre & Hk & Hle).
        exists (Loaded latest :: pre), k. split; [done|]. split; [by apply Hq|].
        split; [lia|]. intros e' st' [?|?]%elem_of_cons; [done|by eapply Hle].
    + intros [= <- <-]. exists []. rewrite app_nil_r.
      split; [done|]. split; [done|]. apply quiet_nil.
  - intros (evs & Hlog & Hfiles & Hr)%train_from_spec.
    exists evs. split; [done|]. split; [done|].
    destruct r as [u|err]; [by apply Hr|].
    destruct Hr as [_ Herr]. destruct err; try done.
    destruct Herr as (pre & k & -> & Hpre & Hk & Hle).
    exists pre, k. split; [done|]. split; [done|]. split; [lia|done].
Qed.

(** Saving does not touch the files of other epochs. *)
Lemma save_model_lookup_ne x e w p :
  p ≠ Ckpt.path (models_dir x) e → files (save_model x e w) !! p = files w !! p.
Proof. intros Hp. simpl. by rewrite lookup_insert_ne. Qed.

Lemma save_model_lookup x e w :
  files (save_model x e w) !! Ckpt.path (models_dir x) e = Some (e, model w).
Proof. simpl. by rewrite lookup_insert_eq. Qed.

(** The checkpoints the epoch loop writes: for a log epoch it reaches, the
    state entering that epoch; other files stay as they were. *)
Lemma epoch_loop_checkpoints x start n w w' r :
  epoch_loop x (seq start n) w = (w', r) →
  (∀ E sE, E ∈ log_epochs x → start ≤ E < start + n →
     after_epochs x (E - start) (model w) = Some sE →
     files w' !! Ckpt.path (models_dir x) E = Some (E, sE)) ∧
  (∀ p, (∀ E, start ≤ E < start + n → p ≠ Ckpt.path (models_dir x) E) →
     files w' !! p = files w !! p).
Proof.
  revert start w. induction n as [|n IH]; intros start w Hrun.
  { simpl in Hrun. injection Hrun as <- <-. split; [intros; lia|done]. }
  rewrite seq_S in Hrun. cbn [epoch_loop] in Hrun.
  set (w1 := if bool_decide (start ∈ log_epochs x)
             then save_model x start w else w) in *.
  assert (Hm1 : model w1 = model w) by (unfold w1; by case_bool_decide).
  assert (Hhere : start ∈ log_epochs x →
            files w1 !! Ckpt.path (models_dir x) start = Some (start, model w)).
  { intros Hin. unfold w1. rewrite bool_decide_eq_true_2 by done.
    apply save_model_lookup. }
  assert (Hother : ∀ p, p ≠ Ckpt.path (models_dir x) start →
            files w1 !! p = files w !! p).
  { intros p Hp. unfold w1. case_bool_decide; [|done].
    by apply save_model_lookup_ne. }
  destruct (_train_single_epoch x start w1) as [w2 r2] eqn:Htse.
  apply train_single_epoch_spec in Htse as (Hf2 & steps & _ & _ & Hr2).
  destruct r2 as [acc|err].
  - destruct Hr2 as [_ Hst2]. rewrite Hm1 in Hst2.
    apply epoch_state_batches in Hst2.
    apply IH in Hrun as [Hsaved Hkept]. simpl in Hsaved, Hkept. split.
    + intros E sE HE Hrange Hafter.
      destruct (decide (E = start)) as [->|Hne].
      * rewrite Nat.sub_diag in Hafter. simpl in Hafter. injection Hafter as <-.
        rewrite Hkept, Hf2; [by apply Hhere|].
        intros E' HE' Heq%NameFacts.path_inj. lia.
      * apply Hsaved; [done|lia|].
        replace (E - start) with (S (E - S start)) in Hafter by lia.
        by rewrite (after_epochs_S _ _ _ _ Hst2) in Hafter.
    + intros p Hp. rewrite Hkept, Hf2.
      * apply Hother, Hp. lia.
      * intros E HE. apply Hp. lia.
  - injection Hrun as <- <-. destruct Hr2 as [Hst2 _]. rewrite Hm1 in Hst2.
    split.
    + intros E sE HE Hrange Hafter.
      destruct (decide (E = start)) as [->|Hne].
      * rewrite Nat.sub_diag in Hafter. simpl in Hafter. injection Hafter as <-.
        rewrite Hf2. by apply Hhere.
      * replace (E - start) with (S (E - S start)) in Hafter by lia.
        by rewrite (after_epochs_fail _ _ _ Hst2) in Hafter.
    + intros p Hp. rewrite Hf2. apply Hother, Hp. lia.
Qed.

Lemma train_from_checkpoints x start w w' r :
  train_from x start w = (w', r) →
  ∀ E sE, E ∈ log_epochs x → start ≤ E < max_epochs x →
    after_epochs x (E - start) (model w) = Some sE →
    files w' !! Ckpt.path (models_dir x) E = Some (E, sE).
Proof.
  unfold train_from.
  destruct (epoch_loop x (seq start (max_epochs x - start)) w) as [w1 r1] eqn:Hloop.
  apply epoch_loop_checkpoints in Hloop as [Hsaved _].
  intros Hrun E sE HE Hrange Hafter.
  assert (files w1 !! Ckpt.path (models_dir x) E = Some (E, sE)) as Hw1.
  { apply Hsaved; [done|lia|done]. }
  destruct r1 as [u|err]; injection Hrun as <- <-; [|done].
  rewrite save_model_lookup_ne; [done|].
  intros Heq%NameFacts.path_inj. lia.
Qed.

Lemma train_from_final x start w w' :
  train_from x start w = (w', Ok ()) →
  files w' !! Ckpt.path (models_dir x) (max_epochs x)
  = Some (max_epochs x, model w').
Proof.
  unfold train_from.
  destruct (epoch_loop x (seq start (max_epochs x - start)) w) as [w1 [u|err]];
    intros [= <-]. simpl. by rewrite lookup_insert_eq.
Qed.

End facts.
End TrainFacts.

(** ** The trainer: divergence and checkpoints *)

Module TrainClaims.
Import Train TrainFacts.
Section claims.
Context {St Batch : Type} `{Trainable St Batch}.
Implicit Types (w : world St) (x : experiment Batch).

(** C2: when the loss of a step is not-a-number (at epoch [k]), [train] ends
    with [RuntimeError] and that step is the last thing the call did: no more
    training and no save after it.  The files are those written before the
    step, every checkpoint saved in the call is of an epoch up to [k], and
    the final checkpoint of [max_epochs] is not among them. *)
Theorem nan_aborts_run x w w' r pre k post :
  train x w = (w', r) →
  log w' = log w ++ pre ++ Stepped k true :: post →
  r = Raise RuntimeError ∧ post = [] ∧
  files w' = replay x (files w) pre ∧
  k < max_epochs x ∧
  (∀ e st, Saved e st ∈ pre → e ≤ k).
Proof.
  intros (evs & Hlog & Hfiles & Hr)%train_spec Hdec.
  rewrite Hlog in Hdec. apply app_inv_head in Hdec. subst evs.
  assert (Hloud : ¬ quiet (pre ++ Stepped k true :: post)).
  { intros Hq. apply (Hq k). apply elem_of_app. right. left. }
  destruct r as [u|err]; [done|]. destruct err; try done.
  destruct Hr as (pre0 & k0 & Heq & Hq & Hk & Hle). symmetry in Heq.
  apply nan_step_last in Heq as (-> & [= ->] & ->); [|done].
  split; [done|]. split; [done|]. split; [|done].
  rewrite Hfiles, replay_app. done.
Qed.

(** C5: with [start] the epoch [train] starts from and the restored state,
    every log epoch [E] the run reaches has its checkpoint holding the state
    entering [E] (the state after the epochs before [E], none of the updates
    of [E] itself); and when all epochs go through, the call returns and the
    checkpoint of [max_epochs] holds the final state. *)
Theorem checkpoint_holds_entering_state x w w0 os w' r :
  resume w = (w0, Ok os) →
  os = None ∨ default 0 os < max_epochs x →
  train x w = (w', r) →
  (∀ E sE, E ∈ log_epochs x → default 0 os ≤ E < max_epochs x →
     after_epochs x (E - default 0 os) (model w0) = Some sE →
     files w' !! Ckpt.path (models_dir x) E = Some (E, sE)) ∧
  (∀ sF, after_epochs x (max_epochs x - default 0 os) (model w0) = Some sF →
     r = Ok () ∧ model w' = sF ∧
     files w' !! Ckpt.path (models_dir x) (max_epochs x)
     = Some (max_epochs x, sF)).
Proof.
  unfold resume, train. intros Hres Hruns Hrun.
  assert (Hfrom : train_from x (default 0 os) w0 = (w', r)).
  { destruct (latest_checkpoint_path w) as [latest|].
    - destruct (load_model latest w) as [w1 [e|err]]; [|done].
      injection Hres as <- <-. simpl in *.
      destruct Hruns as [|Hlt]; [done|].
      apply Nat.leb_gt in Hlt. by rewrite Hlt in Hrun.
    - by injection Hres as <- <-. }
  split; [exact (train_from_checkpoints _ _ _ _ _ Hfrom)|].
  intros sF Hafter.
  pose proof (train_from_spec _ _ _ _ _ Hfrom) as (evs & _ & _ & Hr).
  destruct r as [[]|err].
  - destruct Hr as (_ & Hst & _). rewrite Hafter in Hst. injection Hst as ->.
    split; [done|]. split; [done|]. by apply (train_from_final x (default 0 os) w0).
  - destruct Hr as [Hst _]. by rewrite Hafter in Hst.
Qed.

End claims.

Import (hints) Toy.

Lemma nan_aborts_run_toy :
  (train Toy.diverging_run Toy.fresh).2 = Raise RuntimeError ∧
  files (train Toy.diverging_run Toy.fresh).1
  = replay Toy.diverging_run ∅
      [Saved 0 0; Stepped 0 false; LrStepped 0;
       Stepped 1 false; LrStepped 1; Saved 2 2].
Proof.
  destruct (nan_aborts_run Toy.diverging_run Toy.fresh
              (train Toy.diverging_run Toy.fresh).1
              (train Toy.diverging_run Toy.fresh).2
              [Saved 0 0; Stepped 0 false; LrStepped 0;
               Stepped 1 false; LrStepped 1; Saved 2 2]
              2 []) as (Hr & _ & Hf & _ & _).
  - vm_compute. reflexivity.
  - vm_compute. reflexivity.
  - split; [exact Hr|exact Hf].
Defined.

Lemma checkpoint_holds_entering_state_toy :
  files (train Toy.short_run Toy.fresh).1 !! "models/002.tar" = Some (2, 2) ∧
  files (train Toy.short_run Toy.fresh).1 !! "models/003.tar" = Some (3, 3).
Proof.
  destruct (train Toy.short_run Toy.fresh) as [w' r] eqn:Hrun.
  destruct (checkpoint_holds_entering_state Toy.short_run Toy.fresh Toy.fresh
              None w' r eq_refl (or_introl eq_refl) Hrun) as [Hlog Hfinal].
  split.
  - apply (Hlog 2 2); [apply (bool_decide_unpack _); vm_compute; exact I
                      |simpl; lia|reflexivity].
  - apply (Hfinal 3). reflexivity.
Defined.

End TrainClaims.

(** ** The measurement loop *)

Module MeasureFacts.
Import Measure.
Section facts.
Context {V Cache : Type}.
Implicit Types (s : state V Cache) (m : measurer V Cache).
Implicit Types (items : list (string * measurer V Cache)) (df : DataFrame V).

Lemma od_set_elem {A} key (value : A) d k v :
  (k, v) ∈ od_set key value d → (k, v) = (key, value) ∨ (k, v) ∈ d.
Proof.
  induction d as [|[k' v'] d IH]; simpl.
  - intros ?%list_elem_of_singleton. by left.
  - destruct (String.eqb k' key) eqn:E.
    + apply String.eqb_eq in E as ->.
      intros [?|?]%elem_of_cons; [by left|right; by right].
    + intros [->|[?|?]%IH]%elem_of_cons; [right; left|by left|right; by right].
Qed.

Lemma measure_loop_app epoch items1 items2 s :
  measure_loop epoch (items1 ++ items2) s =
  match measure_loop epoch items1 s with
  | (s1, Ok _) => measure_loop epoch items2 s1
  | (s1, Raise err) => (s1, Raise err)
  end.
Proof.
  revert s. induction items1 as [|[id m] items1 IH]; intros s; [done|].
  simpl. destruct (m (shared_cache s)) as [df cache].
  destruct (negb _); [done|]. destruct (_ =? 0); [apply IH|].
  destruct (match epoch with Some _ => _ | None => _ end); [apply IH|done].
Qed.

(** The loop only adds keys of measurers it runs, and only adds warnings. *)
Lemma measure_loop_keys epoch items s s' r :
  measure_loop epoch items s = (s', r) →
  (∀ k, k ∈ (all_measurements s').*1 →
        k ∈ (all_measurements s).*1 ∨ k ∈ items.*1) ∧
  (∀ k, k ∈ warnings s → k ∈ warnings s').
Proof.
  revert s. induction items as [|[id m] items IH]; intros s; simpl.
  { intros [= <- <-]. auto. }
  destruct (m (shared_cache s)) as [df cache].
  destruct (negb _); [intros [= <- <-]; simpl; auto|].
  destruct (_ =? 0).
  { intros [Hk Hw]%IH. simpl in *. split.
    - intros k [?|?]%Hk; [by left|right; by right].
    - intros k Hin. apply Hw, elem_of_app. by left. }
  destruct (match epoch with Some _ => _ | None => _ end) as [df'|err];
    [|intros [= <- <-]; simpl; auto].
  intros [Hk Hw]%IH. simpl in *. split; [|done].
  intros k [Hin|?]%Hk; [|right; by right].
  apply list_elem_of_fmap in Hin as ([k' v'] & -> & [[= -> _]|Hin]%od_set_elem).
  - right. left.
  - left. apply list_elem_of_fmap. by exists (k', v').
Qed.

(** With an epoch at hand, everything the loop stores is stamped. *)
Lemma measure_loop_stamped e items s s' r :
  measure_loop (Some e) items s = (s', r) →
  Forall (λ kv, stamped_with e kv.2) (all_measurements s) →
  Forall (λ kv, stamped_with e kv.2) (all_measurements s').
Proof.
  revert s. induction items as [|[id m] items IH]; intros s; simpl.
  { by intros [= <- <-]. }
  destruct (m (shared_cache s)) as [df cache].
  destruct (negb _); [by intros [= <- <-]|].
  destruct (_ =? 0); [intros Hrun Hall; by apply (IH _ Hrun)|].
  unfold insert0. case_bool_decide; [by intros [= <- <-]|].
  intros Hrun Hall. apply (IH _ Hrun). simpl.
  apply Forall_forall. intros [k v] [[= -> ->]|Hin]%od_set_elem.
  - split; [done|]. simpl. apply Forall_fmap, Forall_true. done.
  - rewrite Forall_forall in Hall. by apply (Hall (k, v)).
Qed.

End facts.
End MeasureFacts.

Module MeasureClaims.
Import Measure MeasureFacts.
Section claims.
Context {V Cache : Type} (fresh : Cache).
Implicit Types (s : state V Cache) (m : measurer V Cache).
Implicit Types (items : list (string * measurer V Cache)) (df : DataFrame V).

(** C6: when it is the turn of a measurer (the ones before it went through,
    leaving state [s1]) and it returns a record [df]: if [df] has rows and no
    [value] column, [do_measurements] fails with [AssertionError] and hands
    nothing to the logger; if [df] has no rows, a warning is emitted, the
    remaining measurers run from the same mapping, and the key of the
    measurer is not in the mapping handed to the logger. *)
Theorem record_validation items1 id m items2 epoch s1 df cache :
  NoDup (items1 ++ (id, m) :: items2).*1 →
  measure_loop epoch items1 (initial fresh) = (s1, Ok ()) →
  m (shared_cache s1) = (df, cache) →
  (rows df ≠ [] → "value" ∉ columns df →
     (do_measurements fresh (items1 ++ (id, m) :: items2) epoch).2
     = Raise AssertionError) ∧
  (rows df = [] →
     measure_loop epoch (items1 ++ (id, m) :: items2) (initial fresh)
     = measure_loop epoch items2 (skipped id cache s1) ∧
     id ∈ (do_measurements fresh (items1 ++ (id, m) :: items2) epoch).1 ∧
     ∀ out, (do_measurements fresh (items1 ++ (id, m) :: items2) epoch).2 = Ok out →
            id ∉ out.*1).
Proof.
  intros Hnd Hrun1 Hm.
  rewrite fmap_app, fmap_cons in Hnd. simpl in Hnd.
  apply NoDup_app in Hnd as (_ & Hid1 & [Hid2 _]%NoDup_cons).
  assert (Hstep : measure_loop epoch (items1 ++ (id, m) :: items2) (initial fresh)
                  = measure_loop epoch ((id, m) :: items2) s1).
  { by rewrite measure_loop_app, Hrun1. }
  unfold do_measurements. rewrite Hstep. split.
  - intros Hrows Hvalue. simpl. rewrite Hm.
    rewrite bool_decide_eq_false_2 by done.
    destruct (rows df); [done|]. done.
  - intros Hrows. simpl. rewrite Hm, Hrows. simpl.
    rewrite orb_true_r. simpl. fold (skipped id cache s1).
    split; [done|].
    destruct (measure_loop epoch items2 (skipped id cache s1)) as [s' r] eqn:Hrun2.
    apply measure_loop_keys in Hrun2 as [Hkeys Hwarn].
    pose proof (measure_loop_keys _ _ _ _ _ Hrun1) as [Hkeys1 _].
    assert (Hw : id ∈ warnings s').
    { apply Hwarn. simpl. apply elem_of_app. right. left. }
    destruct r as [u|err]; simpl; (split; [done|]); [|done].
    intros out [= <-] [Hin|Hin]%Hkeys; [|done].
    simpl in Hin. apply Hkeys1 in Hin as [Hin|Hin].
    + by apply elem_of_nil in Hin.
    + apply (Hid1 id); [done|left].
Qed.

(** C9: when the epoch of the checkpoint is known, every record handed to
    the logger has [epoch] as its first column, with that epoch in every
    row. *)
Theorem records_stamped items e out :
  (do_measurements fresh items (Some e)).2 = Ok out →
  ∀ id df, (id, df) ∈ out → stamped_with e df.
Proof.
  unfold do_measurements.
  destruct (measure_loop (Some e) items _) as [s' r] eqn:Hrun.
  apply measure_loop_stamped in Hrun; [|by constructor].
  destruct r as [u|err]; [|done]. intros [= <-] id df Hin.
  rewrite Forall_forall in Hrun. by apply (Hrun (id, df)).
Qed.

End claims.

Lemma record_validation_toy :
  (do_measurements 0
     [("acc", Toy.good); ("bad", Toy.broken); ("nc", Toy.good)] (Some 5)).2
  = Raise AssertionError ∧
  "empty" ∈ (do_measurements 0
     [("acc", Toy.good); ("empty", Toy.silent); ("nc", Toy.good)] (Some 5)).1 ∧
  (∀ out, (do_measurements 0
     [("acc", Toy.good); ("empty", Toy.silent); ("nc", Toy.good)] (Some 5)).2
     = Ok out → "empty" ∉ out.*1).
Proof.
  split.
  - eapply (record_validation 0 [("acc", Toy.good)] "bad" Toy.broken
              [("nc", Toy.good)] (Some 5)).
    + apply (bool_decide_unpack _). vm_compute. exact I.
    + vm_compute. reflexivity.
    + vm_compute. reflexivity.
    + done.
    + apply (bool_decide_unpack _). vm_compute. exact I.
  - eapply (record_validation 0 [("acc", Toy.good)] "empty" Toy.silent
              [("nc", Toy.good)] (Some 5)).
    + apply (bool_decide_unpack _). vm_compute. exact I.
    + vm_compute. reflexivity.
    + vm_compute. reflexivity.
    + reflexivity.
Defined.

Lemma records_stamped_toy :
  stamped_with 5
    {| columns := ["epoch"; "value"]; rows := [[Epoch 5; Val 0]] |}.
Proof.
  eapply (records_stamped 0 [("acc", Toy.good)] 5 _ _ "acc").
  Unshelve.
  3: { vm_compute. reflexivity. }
  left.
Defined.

End MeasureClaims.

(** ** Construction and fan-out *)

Module InitFacts.
Import Init.
Section facts.
Context {M : Type} (instantiate : string → result M).

(** [d[key] = value] on distinct keys: the pairs of the other keys stay, the
    pair of [key] is the new one. *)
Lemma od_set_elem_of {A} key (value : A) d k v :
  NoDup d.*1 →
  (k, v) ∈ Measure.od_set key value d ↔
  (k = key ∧ v = value) ∨ (k ≠ key ∧ (k, v) ∈ d).
Proof.
  induction d as [|[k0 v0] d IH]; intros Hnd; simpl.
  { rewrite list_elem_of_singleton, elem_of_nil. split.
    - intros [= -> ->]. by left.
    - intros [[-> ->]|[_ []]]. done. }
  rewrite fmap_cons in Hnd. apply NoDup_cons in Hnd as [Hk0 Hnd]. simpl in Hk0.
  assert (Hkeys : ∀ k' v', (k', v') ∈ d → k' ≠ k0).
  { intros k' v' Hin ->. apply Hk0, list_elem_of_fmap. by exists (k0, v'). }
  destruct (String.eqb k0 key) eqn:E.
  - apply String.eqb_eq in E as ->. rewrite !elem_of_cons. split.
    + intros [[= -> ->]|Hin]; [by left|right]. split; [by eapply Hkeys|by right].
    + intros [[-> ->]|[Hne [[= -> ->]|Hin]]]; [by left|done|by right].
  - apply String.eqb_neq in E. rewrite !elem_of_cons, IH by done. split.
    + intros [[= -> ->]|[?|[? ?]]]; [right; split; [done|by left]|by left|].
      right. split; [done|by right].
    + intros [[-> ->]|[Hne [[= -> ->]|Hin]]]; [right; by left|by left|].
      right. by right.
Qed.

Lemma od_set_NoDup {A} key (value : A) d :
  NoDup d.*1 → NoDup (Measure.od_set key value d).*1.
Proof.
  induction d as [|[k0 v0] d IH]; [intros _; apply NoDup_singleton|].
  rewrite fmap_cons. intros [Hk0 Hnd]%NoDup_cons. simpl in Hk0.
  cbn [Measure.od_set].
  destruct (String.eqb k0 key) eqn:E; rewrite fmap_cons; apply NoDup_cons.
  - done.
  - apply String.eqb_neq in E. split; [|by apply IH]. simpl.
    intros ([k v] & -> & Hin)%list_elem_of_fmap. simpl in *.
    apply od_set_elem_of in Hin as [[? ?]|[_ Hin]]; [done| |done].
    apply Hk0, list_elem_of_fmap. by exists (k, v).
Qed.

(** The dict comprehension over names that all instantiate: its keys are
    the names, each bound to the instance of its name. *)
Lemma build_measures_set l d :
  Forall (λ n, ∃ m, instantiate n = Ok m) l → NoDup (d.*1) →
  ∃ d', build_measures instantiate (YStr <$> l) d = Ok d' ∧ NoDup (d'.*1) ∧
        ∀ n m, (n, m) ∈ d' ↔
               (n ∈ l ∧ instantiate n = Ok m) ∨ (¬ n ∈ l ∧ (n, m) ∈ d).
Proof.
  intros Hall. revert d. induction Hall as [|a l [ma Ha] Hall IH]; intros d Hnd.
  { exists d. split; [done|]. split; [done|]. intros n m.
    pose proof (not_elem_of_nil n). tauto. }
  rewrite fmap_cons. cbn [build_measures]. rewrite Ha.
  destruct (IH (Measure.od_set a ma d)) as (d' & -> & Hnd' & Hd');
    [by apply od_set_NoDup|].
  exists d'. split; [done|]. split; [done|]. intros n m.
  rewrite Hd', od_set_elem_of, elem_of_cons by done.
  assert (Hinst : n = a → (instantiate n = Ok m ↔ m = ma)).
  { intros ->. rewrite Ha. split; [by intros [= ->]|by intros ->]. }
  destruct (decide (n = a)); destruct (decide (n ∈ l)); tauto.
Qed.

End facts.
End InitFacts.

Module InitClaims.
Import Init InitFacts.
Section claims.
Context {M X W : Type}.
Context (ALL FAST SLOW : list string) (instantiate : string → result M).
Context (before : result X) (copy_config_to_dir : X → result ()).
Context (train measure : experiment M X → W → W * result ()).

(** C7: the measurers are fixed by [__init__].  The configuration value
    [true] stands for the names of [ALL_MEASURES], the presets [fast] and
    [slow] (in any letter case) for their lists, and any other value that is
    not a string is taken as it is, as the collection of names.  When the
    names the value stands for all instantiate, the experiment that
    [__init__] returns has exactly these names as the keys of [measures],
    each once and each bound to the measurer instantiated for it.  Any other
    string makes [__init__] raise [NotImplementedError], so that
    [run_experiment] ends with that error and an untouched world: no
    training, no measurement. *)
Theorem measure_set_resolution :
  measure_strings ALL FAST SLOW (YBool true) = Ok (names ALL) ∧
  (∀ s, lower s = "fast" → measure_strings ALL FAST SLOW (YStr s) = Ok (names FAST)) ∧
  (∀ s, lower s = "slow" → measure_strings ALL FAST SLOW (YStr s) = Ok (names SLOW)) ∧
  (∀ v, v ≠ YBool true → (∀ s, v ≠ YStr s) →
        measure_strings ALL FAST SLOW v = Ok v) ∧
  (∀ v l x,
     measure_strings ALL FAST SLOW v = Ok (names l) →
     Forall (λ n, ∃ m, instantiate n = Ok m) l →
     before = Ok x → copy_config_to_dir x = Ok () →
     ∃ exp,
       __init__ ALL FAST SLOW instantiate before copy_config_to_dir v = Ok exp ∧
       parts exp = x ∧ NoDup ((measures exp).*1) ∧
       ∀ n m, (n, m) ∈ measures exp ↔ n ∈ l ∧ instantiate n = Ok m) ∧
  (∀ s x w, lower s ≠ "fast" → lower s ≠ "slow" → before = Ok x →
        __init__ ALL FAST SLOW instantiate before copy_config_to_dir (YStr s)
        = Raise NotImplementedError ∧
        run_experiment ALL FAST SLOW instantiate before copy_config_to_dir
          train measure (YStr s) w
        = (w, Raise NotImplementedError)).
Proof.
  split; [done|]. split.
  { intros s Hs. simpl. by rewrite Hs. }
  split.
  { intros s Hs. simpl. by rewrite Hs. }
  split.
  { intros v Hv Hs. destruct v as [|[]| | | |]; try done. by destruct (Hs s). }
  split.
  { intros v l x Hv Hall -> Hcopy. unfold __init__, resolve_measures.
    rewrite Hv. cbn [py_iter names].
    destruct (build_measures_set instantiate l [] Hall) as (d & -> & Hnd & Hd);
      [apply NoDup_nil_2|].
    rewrite Hcopy. eexists. split; [done|]. split; [done|]. split; [done|].
    intros n m. rewrite Hd. pose proof (not_elem_of_nil (n, m)). tauto. }
  intros s x w Hfast%String.eqb_neq Hslow%String.eqb_neq ->.
  assert (Hinit : __init__ ALL FAST SLOW instantiate (Ok x) copy_config_to_dir (YStr s)
                  = Raise NotImplementedError).
  { unfold __init__, resolve_measures. simpl. by rewrite Hfast, Hslow. }
  split; [done|]. unfold run_experiment. by rewrite Hinit.
Qed.

End claims.

Lemma measure_set_resolution_toy :
  measure_strings Toy.ALL_MEASURES Toy.FAST_MEASURES Toy.SLOW_MEASURES (YStr "Fast")
  = Ok (names ["Accuracy"]) ∧
  (∃ exp,
     __init__ Toy.ALL_MEASURES Toy.FAST_MEASURES Toy.SLOW_MEASURES
       Toy.instantiate (Ok ()) (λ _, Ok ()) (YBool true) = Ok exp ∧
     parts exp = () ∧ NoDup ((measures exp).*1) ∧
     ∀ n m, (n, m) ∈ measures exp ↔ n ∈ Toy.ALL_MEASURES ∧ Toy.instantiate n = Ok m) ∧
  run_experiment (W := nat) Toy.ALL_MEASURES Toy.FAST_MEASURES Toy.SLOW_MEASURES
    Toy.instantiate (Ok ()) (λ _, Ok ())
    (λ _ w, (S w, Ok ())) (λ _ w, (S w, Ok ())) (YStr "quick") 0
  = (0, Raise NotImplementedError).
Proof.
  destruct (measure_set_resolution (W := nat) Toy.ALL_MEASURES Toy.FAST_MEASURES
              Toy.SLOW_MEASURES Toy.instantiate (Ok ()) (λ _, Ok ())
              (λ _ w, (S w, Ok ())) (λ _ w, (S w, Ok ())))
    as (_ & Hfast & _ & _ & Hset & Hother).
  split; [|split].
  - apply Hfast. reflexivity.
  - apply (Hset (YBool true) Toy.ALL_MEASURES ()).
    + reflexivity.
    + repeat (apply Forall_cons; split; [by eexists|]). by constructor.
    + reflexivity.
    + reflexivity.
  - apply (Hother "quick" ()); [by vm_compute|by vm_compute|reflexivity].
Defined.

End InitClaims.

Module MainFacts.
Import Main.
Section facts.
Context {Config SaveDirs : Type}.
Context (set_save_dir : Config → SaveDirs → string → result Config).
Context (write_conf_to_savedir : Config → SaveDirs → string → result string).
Context (write_to_bash_script : nat → SaveDirs → string → result ()).
Context (sbatch : SaveDirs → nat → result ()).

Local Abbreviation materialise :=
  (Main.materialise set_save_dir write_conf_to_savedir write_to_bash_script).
Local Abbreviation run_experiments := (Main.run_experiments sbatch).

(** Writing the run directories submits nothing; when it goes through, every
    run has its configuration and its launch script. *)
Lemma materialise_spec idx configs base log log' r :
  materialise idx configs base log = (log', r) →
  ∃ evs, log' = log ++ evs ∧ (∀ k, Submitted k ∉ evs) ∧
    (r = Ok () → ∀ i, idx ≤ i < idx + length configs →
                      WroteConf i ∈ evs ∧ WroteScript i ∈ evs).
Proof.
  revert idx log. induction configs as [|[c rel] configs IH]; intros idx log; simpl.
  { intros [= <- <-]. exists []. rewrite app_nil_r.
    split; [done|]. split; [by intros ? ?%elem_of_nil|]. intros; lia. }
  assert (Hnil : ∀ err, ∃ evs : list event, log = log ++ evs ∧
            (∀ k, Submitted k ∉ evs) ∧
            (Raise err = Ok () → ∀ i, idx ≤ i < idx + S (length configs) →
                                      WroteConf i ∈ evs ∧ WroteScript i ∈ evs)).
  { intros err. exists []. rewrite app_nil_r.
    split; [done|]. split; [by intros ? ?%elem_of_nil|done]. }
  destruct (set_save_dir c base rel) as [c'|err]; [|by intros [= <- <-]].
  destruct (write_conf_to_savedir c' base rel) as [run|err]; [|by intros [= <- <-]].
  destruct (write_to_bash_script idx base run) as [u|err].
  - intros (evs & -> & Hsub & Hall)%IH.
    exists (WroteConf idx :: WroteScript idx :: evs).
    split; [by rewrite <-!app_assoc|]. split.
    + intros k [?|[?|?]%elem_of_cons]%elem_of_cons; [done|done|by eapply Hsub].
    + intros Hr i Hi. destruct (decide (i = idx)) as [->|Hne].
      * split; [left|right; left].
      * destruct (Hall Hr i) as [H1 H2]; [lia|]. split; by do 2 right.
  - intros [= <- <-]. exists [WroteConf idx]. split; [done|]. split; [|done].
    by intros k ?%list_elem_of_singleton.
Qed.

Lemma run_experiments_spec jobs base log log' r :
  run_experiments jobs base log = (log', r) →
  ∃ sent, log' = log ++ (Submitted <$> sent).
Proof.
  revert log. induction jobs as [|k jobs IH]; intros log; simpl.
  { intros [= <- <-]. exists []. by rewrite app_nil_r. }
  destruct (sbatch base k).
  - intros [sent ->]%IH. exists (k :: sent). by rewrite <-app_assoc.
  - intros [= <- <-]. exists []. by rewrite app_nil_r.
Qed.

(** A refused job ends the submission; the jobs before it stay submitted. *)
Lemma run_experiments_refused sent k rest base log err :
  (∀ j, j ∈ sent → sbatch base j = Ok ()) → sbatch base k = Raise err →
  run_experiments (sent ++ k :: rest) base log
  = (log ++ (Submitted <$> sent), Raise err).
Proof.
  revert log. induction sent as [|j sent IH]; intros log Hsent Hk; simpl.
  - by rewrite Hk, app_nil_r.
  - rewrite (Hsent j) by left. rewrite IH; [|intros; apply Hsent; by right|done].
    by rewrite <-app_assoc.
Qed.

(** What precedes the first submission contains all that was written. *)
Lemma before_first_submission (evs sent pre post : list event) k :
  (∀ j, Submitted j ∉ evs) →
  evs ++ sent = pre ++ Submitted k :: post → ∃ more, pre = evs ++ more.
Proof.
  revert pre. induction evs as [|ev evs IH]; intros pre Hno Heq; [by exists pre|].
  destruct pre as [|ev' pre]; simplify_eq/=.
  - exfalso. apply (Hno k). left.
  - destruct (IH pre) as [more ->]; [|done|by exists more].
    intros j Hj. apply (Hno j). by right.
Qed.

End facts.
End MainFacts.

Module MainClaims.
Import Main MainFacts.
Section claims.
Context {Config SaveDirs : Type}.
Context (parse_config_matrix : string → result (list (Config * string) * string)).
Context (make_save_dirs : string → result SaveDirs).
Context (set_save_dir : Config → SaveDirs → string → result Config).
Context (write_conf_to_savedir : Config → SaveDirs → string → result string).
Context (write_to_bash_script : nat → SaveDirs → string → result ()).
Context (sbatch : SaveDirs → nat → result ()).

Local Abbreviation main :=
  (Main.main parse_config_matrix make_save_dirs set_save_dir
             write_conf_to_savedir write_to_bash_script sbatch).
Local Abbreviation materialise :=
  (Main.materialise set_save_dir write_conf_to_savedir write_to_bash_script).

(** C8: in the fan-out path, a failing expansion leaves nothing written and
    nothing submitted; whenever a job is submitted, the expansion had
    returned and every run had its configuration and launch script written
    before; and when the scheduler refuses job [k], the call ends with that
    error and the jobs before [k] stay submitted. *)
Theorem fan_out_order path log :
  (∀ err, parse_config_matrix path = Raise err → main path log = (log, Raise err)) ∧
  (∀ log' r pre k post,
     main path log = (log', r) → log' = log ++ pre ++ Submitted k :: post →
     ∃ configs parent, parse_config_matrix path = Ok (configs, parent) ∧
       ∀ i, i < length configs → WroteConf i ∈ pre ∧ WroteScript i ∈ pre) ∧
  (∀ configs parent base written k err,
     parse_config_matrix path = Ok (configs, parent) →
     make_save_dirs parent = Ok base →
     materialise 0 configs base log = (written, Ok ()) →
     k < length configs →
     (∀ j, j < k → sbatch base j = Ok ()) → sbatch base k = Raise err →
     main path log = (written ++ (Submitted <$> seq 0 k), Raise err)).
Proof.
  split; [|split].
  - intros err Hparse. unfold Main.main. by rewrite Hparse.
  - intros log' r pre k post. unfold Main.main.
    destruct (parse_config_matrix path) as [[configs parent]|err].
    2: { intros [= <- <-] Heq. rewrite <-(app_nil_r log) in Heq at 1.
         apply app_inv_head in Heq. by destruct pre. }
    destruct (make_save_dirs parent) as [base|err].
    2: { intros [= <- <-] Heq. rewrite <-(app_nil_r log) in Heq at 1.
         apply app_inv_head in Heq. by destruct pre. }
    destruct (materialise 0 configs base log) as [log1 r1] eqn:Hmat.
    apply materialise_spec in Hmat as (evs & -> & Hno & Hall).
    destruct r1 as [[]|err].
    + intros [sent ->]%run_experiments_spec Heq.
      rewrite <-app_assoc in Heq. apply app_inv_head in Heq.
      apply before_first_submission in Heq as [more ->]; [|done].
      exists configs, parent. split; [done|]. intros i Hi.
      destruct (Hall eq_refl i) as [H1 H2]; [lia|].
      split; apply elem_of_app; by left.
    + intros [= <- <-] Heq. apply app_inv_head in Heq.
      exfalso. apply (Hno k). rewrite Heq. apply elem_of_app. right. left.
  - intros configs parent base written k err Hparse Hdirs Hmat Hk Hsent Hrefused.
    unfold Main.main. rewrite Hparse, Hdirs, Hmat.
    replace (seq 0 (length configs))
      with (seq 0 k ++ k :: seq (S k) (length configs - S k)).
    + apply run_experiments_refused; [|done].
      intros j Hj%elem_of_seq. apply Hsent. lia.
    + replace (length configs) with (k + S (length configs - S k)) at 2 by lia.
      by rewrite seq_app.
Qed.

End claims.

Lemma fan_out_order_toy :
  Main.main Toy.parse_config_matrix (λ parent, Ok parent)
    (λ c _ _, Ok c) (λ _ _ rel, Ok rel) (λ _ _ _, Ok ()) Toy.sbatch "matrix.yaml" []
  = ([WroteConf 0; WroteScript 0; WroteConf 1; WroteScript 1;
      WroteConf 2; WroteScript 2; Submitted 0; Submitted 1],
     Raise (OtherError "sbatch")).
Proof.
  destruct (fan_out_order Toy.parse_config_matrix (λ parent, Ok parent)
              (λ c _ _, Ok c) (λ _ _ rel, Ok rel) (λ _ _ _, Ok ()) Toy.sbatch
              "matrix.yaml" []) as (_ & _ & Hrefused).
  apply (Hrefused [(10, "lr_0.1"); (20, "lr_0.01"); (30, "lr_0.001")] "runs" "runs"
           [WroteConf 0; WroteScript 0; WroteConf 1; WroteScript 1;
            WroteConf 2; WroteScript 2] 2 (OtherError "sbatch")).
  - reflexivity.
  - reflexivity.
  - reflexivity.
  - simpl. lia.
  - intros j Hj. destruct j as [|[|j]]; [reflexivity|reflexivity|lia].
  - reflexivity.
Defined.

End MainClaims.

(** ** Resuming from the latest checkpoint *)

Module ResumeFacts.
Import Train TrainFacts.
Section facts.
Context {St Batch : Type} `{Trainable St Batch}.
Implicit Types (w : world St) (x : experiment Batch).

Lemma last_sorted_max (l : list string) m :
  StronglySorted String.le l → last l = Some m → ∀ p, p ∈ l → String.le p m.
Proof.
  intros Hsorted [l' ->]%last_Some p [Hp| ->%list_elem_of_singleton]%elem_of_app;
    [|done].
  eapply StronglySorted_app_1_elem_of; [done..|left].
Qed.

(** [sorted(paths)[-1]] is a path of the directory and no path of the
    directory is greater, in the order of strings. *)
Lemma latest_some w m :
  latest_checkpoint_path w = Some m →
  m ∈ dom (files w) ∧ ∀ p, p ∈ dom (files w) → String.le p m.
Proof.
  unfold latest_checkpoint_path, sorted, get_all_saved_model_paths.
  intros Hlast.
  assert (Hperm := merge_sort_Permutation String.le (elements (dom (files w)))).
  split.
  - apply elem_of_elements. rewrite <-Hperm. by eapply last_Some_elem_of.
  - intros p Hp. apply (last_sorted_max _ _ (StronglySorted_merge_sort _ _) Hlast).
    rewrite Hperm. by apply elem_of_elements.
Qed.

Lemma latest_none w : latest_checkpoint_path w = None → files w = ∅.
Proof.
  unfold latest_checkpoint_path, sorted, get_all_saved_model_paths.
  intros Hnil%last_None.
  assert (Hperm := merge_sort_Permutation String.le (elements (dom (files w)))).
  rewrite Hnil in Hperm. apply Permutation_nil in Hperm.
  apply elements_empty_inv in Hperm. apply dom_empty_inv in Hperm. done.
Qed.

Lemma saved_epochs_elem (fs : gmap string (nat * St)) e :
  e ∈ saved_epochs fs ↔ ∃ p st, fs !! p = Some (e, st).
Proof.
  unfold saved_epochs. rewrite list_elem_of_fmap. split.
  - intros ([p [e' st]] & -> & Hin%elem_of_map_to_list). eauto.
  - intros (p & st & Hp). exists (p, (e, st)). split; [done|].
    by apply elem_of_map_to_list.
Qed.

(** With well-named checkpoints of epochs below 1000, the latest path is the
    checkpoint of the greatest epoch. *)
Lemma latest_below_1000 x w m :
  named_below x 1000 (files w) → latest_checkpoint_path w = Some m →
  ∃ E st, m = Ckpt.path (models_dir x) E ∧ files w !! m = Some (E, st) ∧
          ∀ e, e ∈ saved_epochs (files w) → e ≤ E.
Proof.
  intros Hnamed [[[E st] Hm]%elem_of_dom Hmax]%latest_some.
  destruct (Hnamed _ _ Hm) as [-> HE]. simpl in HE. exists E, st.
  split; [done|]. split; [done|].
  intros e (p & st' & Hp)%saved_epochs_elem.
  destruct (Hnamed _ _ Hp) as [-> He]. simpl in He.
  apply (NameFacts.path_le_below_1000 (models_dir x)); [done..|].
  apply Hmax, elem_of_dom. eauto.
Qed.

Lemma set_model_same w : set_model (model w) w = w.
Proof. by destruct w. Qed.

Lemma replay_lookup x (fs : gmap string (nat * St)) evs p e st :
  replay x fs evs !! p = Some (e, st) →
  fs !! p = Some (e, st) ∨
  (p = Ckpt.path (models_dir x) e ∧ Saved e st ∈ evs).
Proof.
  revert fs. induction evs as [|ev evs IH]; intros fs; [by left|].
  simpl. intros [Hp|[-> Hin]]%IH; [|right; split; [done|by right]].
  destruct ev as [| e' st' | |]; try by left.
  destruct (decide (p = Ckpt.path (models_dir x) e')) as [->|Hne].
  - rewrite lookup_insert_eq in Hp. injection Hp as -> ->.
    right. split; [done|left].
  - rewrite lookup_insert_ne in Hp by done. by left.
Qed.

(** The files after [train_from]: those that were there, or a checkpoint of
    an epoch up to [max_epochs] written under its own name. *)
Lemma train_from_files x start w w' r p e st :
  train_from x start w = (w', r) →
  files w' !! p = Some (e, st) →
  files w !! p = Some (e, st) ∨
  (p = Ckpt.path (models_dir x) e ∧ e ≤ max_epochs x).
Proof.
  unfold train_from.
  destruct (epoch_loop x (seq start (max_epochs x - start)) w) as [w1 r1] eqn:Hloop.
  apply epoch_loop_spec in Hloop as (evs & _ & Hfiles & Hsaved & _).
  assert (Hw1 : files w1 !! p = Some (e, st) →
            files w !! p = Some (e, st) ∨
            (p = Ckpt.path (models_dir x) e ∧ e ≤ max_epochs x)).
  { rewrite Hfiles. intros [?|[-> Hin]]%replay_lookup; [by left|right].
    split; [done|]. apply Hsaved in Hin. lia. }
  destruct r1 as [u|err]; intros [= <- <-]; [|done].
  simpl. destruct (decide (p = Ckpt.path (models_dir x) (max_epochs x))) as [->|Hne].
  - rewrite lookup_insert_eq. intros [= <- <-]. by right.
  - by rewrite lookup_insert_ne.
Qed.

End facts.
End ResumeFacts.

Module ResumeClaims.
Import Train TrainFacts ResumeFacts.
Section claims.
Context {St Batch : Type} `{Trainable St Batch}.
Implicit Types (w : world St) (x : experiment Batch).

(** [train] is [resume] followed by the test on the restored epoch. *)
Lemma train_resume x w :
  train x w =
  match resume w with
  | (w0, Raise err) => (w0, Raise err)
  | (w0, Ok (Some e)) =>
      if max_epochs x <=? e then (w0, Ok ()) else train_from x e w0
  | (w0, Ok None) => train_from x 0 w0
  end.
Proof.
  unfold train, resume. destruct (latest_checkpoint_path w); [|done].
  by destruct (load_model _ w) as [w0 [e|err]].
Qed.

(** The resume step where names sort as epochs do: when checkpoints exist,
    all of epochs below 1000 and named to width three, the checkpoint loaded
    is the one of the numerically greatest saved epoch [E]: model and
    optimizer state are restored from it and the start epoch is [E]. *)
Theorem resume_from_greatest_epoch x w :
  named_below x 1000 (files w) → files w ≠ ∅ →
  ∃ E st,
    files w !! Ckpt.path (models_dir x) E = Some (E, st) ∧
    E ∈ saved_epochs (files w) ∧
    (∀ e, e ∈ saved_epochs (files w) → e ≤ E) ∧
    resume w
    = (record (Loaded (Ckpt.path (models_dir x) E)) (set_model st w), Ok (Some E)).
Proof.
  intros Hnamed Hfiles.
  destruct (latest_checkpoint_path w) as [m|] eqn:Hlatest;
    [|by apply latest_none in Hlatest].
  destruct (latest_below_1000 x w m Hnamed Hlatest) as (E & st & -> & Hm & Hmax).
  exists E, st. split; [done|]. split; [apply saved_epochs_elem; eauto|].
  split; [done|]. unfold resume, load_model. by rewrite Hlatest, Hm.
Qed.

(** What a call that returns leaves behind, below 1000: well-named files,
    among them the checkpoint of the greatest epoch, which is at least
    [max_epochs] and holds the current state. *)
Lemma first_call_leaves x w w1 :
  named_below x 1000 (files w) → max_epochs x < 1000 →
  train x w = (w1, Ok ()) →
  named_below x 1000 (files w1) ∧
  ∃ E, files w1 !! Ckpt.path (models_dir x) E = Some (E, model w1) ∧
       max_epochs x ≤ E ∧ ∀ e, e ∈ saved_epochs (files w1) → e ≤ E.
Proof.
  intros Hnamed Hmax. unfold train.
  assert (Hfrom : ∀ start w0, files w0 = files w →
            (∀ e, e ∈ saved_epochs (files w) → e ≤ max_epochs x) →
            train_from x start w0 = (w1, Ok ()) →
            named_below x 1000 (files w1) ∧
            ∃ E, files w1 !! Ckpt.path (models_dir x) E = Some (E, model w1) ∧
                 max_epochs x ≤ E ∧ ∀ e, e ∈ saved_epochs (files w1) → e ≤ E).
  { intros start w0 Hw0 Hold Hrun. split.
    - intros p [e st] Hp.
      destruct (train_from_files _ _ _ _ _ _ _ _ Hrun Hp) as [Hin|[-> He]].
      + rewrite Hw0 in Hin. by apply (Hnamed _ _ Hin).
      + simpl. split; [done|lia].
    - exists (max_epochs x). split; [by apply (train_from_final x start w0)|].
      split; [done|]. intros e (p & st & Hp)%saved_epochs_elem.
      destruct (train_from_files _ _ _ _ _ _ _ _ Hrun Hp) as [Hin|[_ He]]; [|done].
      rewrite Hw0 in Hin. apply Hold, saved_epochs_elem. eauto. }
  destruct (latest_checkpoint_path w) as [m|] eqn:Hlatest.
  - destruct (latest_below_1000 x w m Hnamed Hlatest) as (E & st & -> & Hm & HE).
    unfold load_model. rewrite Hm.
    destruct (max_epochs x <=? E) eqn:Hdone.
    + intros [= <-]. simpl. split; [done|]. exists E.
      split; [done|]. split; [by apply Nat.leb_le|done].
    + apply Nat.leb_gt in Hdone. apply Hfrom; [done|].
      intros e He%HE. lia.
  - apply latest_none in Hlatest. apply Hfrom; [done|].
    intros e (p & st & Hp)%saved_epochs_elem. by rewrite Hlatest in Hp.
Qed.

(** X20: where a second call is a no-op.  With checkpoints of epochs below
    1000 named to width three and [max_epochs] below 1000, after a call of
    [train] that returned, a second call only loads the latest checkpoint
    and returns: no epoch is trained again, the files and the state of model
    and optimizer stay as they were. *)
Theorem second_train_is_noop x w w1 :
  named_below x 1000 (files w) → max_epochs x < 1000 →
  train x w = (w1, Ok ()) →
  ∃ latest, train x w1 = (record (Loaded latest) w1, Ok ()).
Proof.
  intros Hnamed Hmax Hrun.
  destruct (first_call_leaves x w w1 Hnamed Hmax Hrun)
    as (Hnamed1 & E & HE & Hdone & Hgreatest).
  destruct (latest_checkpoint_path w1) as [m|] eqn:Hlatest.
  2: { apply latest_none in Hlatest. by rewrite Hlatest in HE. }
  destruct (latest_below_1000 x w1 m Hnamed1 Hlatest)
    as (E' & st' & -> & HE' & Hgreatest').
  assert (E' = E) as ->.
  { apply Nat.le_antisymm.
    - apply Hgreatest, saved_epochs_elem. eauto.
    - apply Hgreatest', saved_epochs_elem. eauto. }
  rewrite HE in HE'. injection HE' as <-.
  exists (Ckpt.path (models_dir x) E).
  unfold train, load_model. rewrite Hlatest, HE, set_model_same.
  apply Nat.leb_le in Hdone. by rewrite Hdone.
Qed.

End claims.

Import (hints) Toy.

Lemma resume_from_greatest_epoch_toy :
  ∃ E st,
    files (train Toy.short_run Toy.fresh).1 !! Ckpt.path "models/" E = Some (E, st) ∧
    E ∈ saved_epochs (files (train Toy.short_run Toy.fresh).1) ∧
    (∀ e, e ∈ saved_epochs (files (train Toy.short_run Toy.fresh).1) → e ≤ E) ∧
    resume (train Toy.short_run Toy.fresh).1
    = (record (Loaded (Ckpt.path "models/" E))
         (set_model st (train Toy.short_run Toy.fresh).1), Ok (Some E)).
Proof.
  apply (resume_from_greatest_epoch Toy.short_run (train Toy.short_run Toy.fresh).1).
  - apply (bool_decide_unpack _). vm_compute. exact I.
  - apply (bool_decide_unpack _). vm_compute. exact I.
Defined.

(** After a run of 1000 epochs that saved a checkpoint at epoch 500 and the
    final one at epoch 1000, the latest path in the order of strings is the
    one of epoch 500 ([500.tar] sorts after [1000.tar]). *)
Lemma resume_not_greatest_from_1000 :
  (train Toy.long_run Toy.fresh).2 = Ok () ∧
  saved_epochs (files (train Toy.long_run Toy.fresh).1) = [500; 1000] ∧
  (resume (train Toy.long_run Toy.fresh).1).2 = Ok (Some 500).
Proof. by vm_compute. Qed.

Lemma second_train_is_noop_toy :
  ∃ latest,
    train Toy.short_run (train Toy.short_run Toy.fresh).1
    = (record (Loaded latest) (train Toy.short_run Toy.fresh).1, Ok ()).
Proof.
  apply (second_train_is_noop Toy.short_run Toy.fresh).
  - apply (bool_decide_unpack _). vm_compute. exact I.
  - simpl. lia.
  - vm_compute. reflexivity.
Defined.

(** With [max_epochs] at 1000 and a checkpoint at epoch 500, the second call
    resumes from epoch 500 and trains the epochs from 500 on again: the log
    then holds two steps of epoch 999. *)
Lemma second_train_repeats_from_1000 :
  (train Toy.long_run Toy.fresh).2 = Ok () ∧
  steps_of 999 (log (train Toy.long_run Toy.fresh).1) = 1 ∧
  (train Toy.long_run (train Toy.long_run Toy.fresh).1).2 = Ok () ∧
  steps_of 999 (log (train Toy.long_run (train Toy.long_run Toy.fresh).1).1) = 2 ∧
  ¬ ∃ latest,
      train Toy.long_run (train Toy.long_run Toy.fresh).1
      = (record (Loaded latest) (train Toy.long_run Toy.fresh).1, Ok ()).
Proof.
  split; [by vm_compute|]. split; [by vm_compute|].
  split; [by vm_compute|]. split; [by vm_compute|].
  intros [latest Heq]. apply (f_equal (λ r, length (log r.1))) in Heq.
  vm_compute in Heq. discriminate Heq.
Qed.

End ResumeClaims.

(** ** More on the scheduler: any listing *)

Module SchedMore.
Import Sched.

Lemma list_remove_Permutation x l l' :
  list_remove x l = Some l' → l ≡ₚ x :: l'.
Proof.
  revert l'. induction l as [|y l IH]; intros l'; simpl; [done|].
  destruct (String.eqb x y) eqn:E.
  - apply String.eqb_eq in E as ->. by intros [= ->].
  - destruct (list_remove x l) as [l1|]; [|done]. simpl. intros [= <-].
    rewrite (IH l1 eq_refl). apply Permutation_swap.
Qed.

Lemma list_remove_filter (g : string → bool) x l l' :
  list_remove x l = Some l' → g x = false → List.filter g l' = List.filter g l.
Proof.
  revert l'. induction l as [|y l IH]; intros l'; simpl; [done|].
  destruct (String.eqb x y) eqn:E.
  - apply String.eqb_eq in E as ->. intros [= ->] ->. done.
  - destruct (list_remove x l) as [l1|]; [|done]. simpl. intros [= <-] Hg.
    simpl. by rewrite (IH l1 eq_refl Hg).
Qed.

Lemma scan_Permutation suffix fuel i l l' :
  scan suffix fuel i l = Some l' → l' ≡ₚ l.
Proof.
  revert i l. induction fuel as [|fuel IH]; intros i l; rewrite scan_unfold.
  - destruct (l !! i); [done|]. by intros [= ->].
  - destruct (l !! i) as [x|]; [|by intros [= ->]].
    destruct (PyStr.endswith x suffix); [|apply IH].
    destruct (list_remove x l) as [l1|] eqn:Hrm; [|done]. simpl.
    intros Hrest%IH. rewrite Hrest.
    pose proof (list_remove_Permutation x l l1 Hrm) as Hl. rewrite Hl.
    apply Permutation_app_comm.
Qed.

(** A pass only moves paths that pass its test: the others keep their
    places relative to each other. *)
Lemma scan_filter (g : string → bool) suffix fuel i l l' :
  (∀ p, PyStr.endswith p suffix = true → g p = false) →
  scan suffix fuel i l = Some l' → List.filter g l' = List.filter g l.
Proof.
  intros Hg. revert i l. induction fuel as [|fuel IH]; intros i l;
    rewrite scan_unfold.
  - destruct (l !! i); [done|]. by intros [= ->].
  - destruct (l !! i) as [x|]; [|by intros [= ->]].
    destruct (PyStr.endswith x suffix) eqn:Hx; [|apply IH].
    destruct (list_remove x l) as [l1|] eqn:Hrm; [|done]. simpl.
    intros Hrest%IH. rewrite Hrest, List.filter_app. simpl.
    rewrite (Hg x Hx), app_nil_r.
    apply (list_remove_filter g x); [done|by apply Hg].
Qed.

Lemma filter_reverse (g : string → bool) l :
  List.filter g (reverse l) = reverse (List.filter g l).
Proof.
  induction l as [|x l IH]; [done|]. rewrite reverse_cons, List.filter_app, IH.
  simpl. destruct (g x); [by rewrite reverse_cons|by rewrite app_nil_r].
Qed.

Lemma plain_misses q p :
  q ∈ priority_checkpoints → hits q p = true →
  plain priority_checkpoints p = false.
Proof.
  intros Hq Hp. unfold plain. apply negb_false_iff, existsb_exists.
  exists q. split; [by apply list_elem_of_In|done].
Qed.

(** The outer loop, for any list of paths: it ends normally with a
    rearrangement of the list in which the paths that pass no priority test
    are in listing order. *)
Lemma prioritise_spec qs l :
  (∀ q, q ∈ qs → q ∈ priority_checkpoints) →
  ∃ l', foldl (λ acc epoch, acc ≫= move_to_back epoch) (Some l) qs = Some l' ∧
        l' ≡ₚ l ∧
        List.filter (plain priority_checkpoints) l'
        = List.filter (plain priority_checkpoints) l.
Proof.
  revert l. induction qs as [|q qs IH]; intros l Hqs; simpl; [by exists l|].
  destruct (SchedFacts.move_to_back_total q l) as (l1 & Hl1 & _). rewrite Hl1.
  destruct (IH l1) as (l' & -> & Hperm & Hfilter).
  { intros q' Hq'. apply Hqs. by right. }
  exists l'. split; [done|]. split.
  - rewrite Hperm. by eapply scan_Permutation.
  - rewrite Hfilter. eapply scan_filter; [|exact Hl1].
    intros p Hp. apply (plain_misses q); [apply Hqs; left|done].
Qed.

(** X1: whatever the listing (even with names that collide on a suffix),
    [do_measurements_on_checkpoints] ends its reordering normally and visits
    a rearrangement of the listing: every checkpoint once, none dropped by
    the removals made while the list is iterated. *)
Theorem visit_order_rearranges l :
  ∃ order, visit_order l = Some order ∧ order ≡ₚ l.
Proof.
  unfold visit_order, prioritise.
  destruct (prioritise_spec (reverse priority_checkpoints) l) as (l' & -> & Hperm & _).
  { intros q Hq. by apply elem_of_reverse. }
  exists (reverse l'). split; [done|]. by rewrite reverse_Permutation.
Qed.

(** X2: whatever the listing, the checkpoints whose names end with no
    priority suffix are never moved: they are visited in the reverse of
    their listing order. *)
Theorem plain_paths_in_reverse_listing_order l :
  ∃ order, visit_order l = Some order ∧
    List.filter (plain priority_checkpoints) order
    = reverse (List.filter (plain priority_checkpoints) l).
Proof.
  unfold visit_order, prioritise.
  destruct (prioritise_spec (reverse priority_checkpoints) l) as (l' & -> & _ & Hf).
  { intros q Hq. by apply elem_of_reverse. }
  exists (reverse l'). split; [done|]. by rewrite filter_reverse, Hf.
Qed.

End SchedMore.

(** ** More on the trainer *)

Module TrainMore.
Import Train TrainFacts ResumeFacts.
Section facts.
Context {St Batch : Type} `{Trainable St Batch}.
Implicit Types (w : world St) (x : experiment Batch).
Implicit Types (evs : list (event St)).

Lemma steps_of_app k evs1 evs2 :
  steps_of k (evs1 ++ evs2) = steps_of k evs1 + steps_of k evs2.
Proof. unfold steps_of. by rewrite List.filter_app, length_app. Qed.

Lemma lr_steps_of_app k evs1 evs2 :
  Count.lr_steps_of k (evs1 ++ evs2)
  = Count.lr_steps_of k evs1 + Count.lr_steps_of k evs2.
Proof. unfold Count.lr_steps_of. by rewrite List.filter_app, length_app. Qed.

Lemma saves_app evs1 evs2 :
  Count.saves (evs1 ++ evs2) = Count.saves evs1 ++ Count.saves evs2.
Proof. apply omap_app. Qed.

(** The steps of one pass over the batches. *)
Lemma batch_loop_count e bs c n w w' r k :
  batch_loop e bs c n w = (w', Ok r) →
  steps_of k (log w') = steps_of k (log w) + (if e =? k then length bs else 0) ∧
  Count.lr_steps_of k (log w') = Count.lr_steps_of k (log w) ∧
  Count.saves (log w') = Count.saves (log w).
Proof.
  revert c n w. induction bs as [|b bs IH]; intros c n w; simpl.
  { intros [= <- _]. destruct (e =? k); auto with lia. }
  destruct (gradient_step (model w) b) as [[st nan] correct].
  destruct nan; [done|]. destruct (batch_len b =? 0); [done|].
  intros (Hs & Hl & Hsv)%IH. simpl in Hs, Hl, Hsv.
  rewrite steps_of_app in Hs. rewrite lr_steps_of_app in Hl.
  rewrite saves_app in Hsv. simpl in Hsv. rewrite app_nil_r in Hsv.
  split; [|by rewrite Hl, Hsv; cbn; rewrite Nat.add_0_r].
  rewrite Hs. cbn. destruct (e =? k); simpl; lia.
Qed.

Lemma train_single_epoch_count x e w w' r k :
  _train_single_epoch x e w = (w', Ok r) →
  steps_of k (log w')
  = steps_of k (log w) + (if e =? k then length (train_loader x) else 0) ∧
  Count.lr_steps_of k (log w') = Count.lr_steps_of k (log w) ∧
  Count.saves (log w') = Count.saves (log w).
Proof.
  unfold _train_single_epoch.
  destruct (batch_loop e (train_loader x) 0 0 w) as [w1 [[c n]|err]] eqn:Hloop;
    [|done].
  destruct (n =? 0); [done|]. intros [= <- _]. by eapply batch_loop_count.
Qed.

(** The counts of a loop that went through: one pass over the loader and one
    step of the schedule for each epoch, a save for each log epoch. *)
Lemma epoch_loop_count x start n w w' u k :
  epoch_loop x (seq start n) w = (w', Ok u) →
  steps_of k (log w')
  = steps_of k (log w)
    + (if bool_decide (start ≤ k < start + n) then length (train_loader x) else 0) ∧
  Count.lr_steps_of k (log w')
  = Count.lr_steps_of k (log w)
    + (if bool_decide (start ≤ k < start + n) then 1 else 0) ∧
  Count.saves (log w')
  = Count.saves (log w) ++ filter (.∈ log_epochs x) (seq start n).
Proof.
  revert start w. induction n as [|n IH]; intros start w Hrun.
  { simpl in Hrun. injection Hrun as <- _.
    rewrite bool_decide_eq_false_2 by lia. simpl. by rewrite app_nil_r, !Nat.add_0_r. }
  rewrite seq_S in Hrun. cbn [epoch_loop] in Hrun.
  destruct (maybe_save_spec x start w) as (sv & _ & Hl1 & _ & Hsv).
  cbv zeta in Hl1.
  set (w1 := if bool_decide (start ∈ log_epochs x)
             then save_model x start w else w) in *.
  destruct (_train_single_epoch x start w1) as [w2 [acc|err]] eqn:Htse; [|done].
  apply (train_single_epoch_count _ _ _ _ _ k) in Htse as (Hs2 & Hlr2 & Hsv2).
  apply IH in Hrun as (Hs & Hlr & Hsaves). simpl in Hs, Hlr, Hsaves.
  rewrite steps_of_app in Hs. rewrite lr_steps_of_app in Hlr.
  rewrite saves_app in Hsaves. simpl in Hsaves. rewrite app_nil_r in Hsaves.
  rewrite Hl1, steps_of_app in Hs2. rewrite Hl1, lr_steps_of_app in Hlr2.
  rewrite Hl1, saves_app in Hsv2.
  assert (Hcount : steps_of k sv = 0 ∧ Count.lr_steps_of k sv = 0 ∧
            Count.saves sv = filter (.∈ log_epochs x) [start]).
  { destruct Hsv as [[-> Hnot]|[-> Hin]].
    - by rewrite filter_cons_False, filter_nil.
    - by rewrite filter_cons_True, filter_nil. }
  destruct Hcount as (Hc1 & Hc2 & Hc3).
  rewrite Hs, Hs2, Hlr, Hlr2, Hsaves, Hsv2, Hc1, Hc2, Hc3.
  split; [|split].
  - cbn. destruct (Nat.eqb_spec start k) as [->|Hne].
    + rewrite bool_decide_eq_false_2 by lia. rewrite bool_decide_eq_true_2 by lia.
      simpl. lia.
    + destruct (decide (S start ≤ k < S start + n)).
      * rewrite !bool_decide_eq_true_2 by lia. simpl. lia.
      * rewrite !bool_decide_eq_false_2 by lia. simpl. lia.
  - cbn. destruct (Nat.eqb_spec start k) as [->|Hne].
    + rewrite bool_decide_eq_false_2 by lia. rewrite bool_decide_eq_true_2 by lia.
      simpl. lia.
    + destruct (decide (S start ≤ k < S start + n)).
      * rewrite !bool_decide_eq_true_2 by lia. simpl. lia.
      * rewrite !bool_decide_eq_false_2 by lia. simpl. lia.
  - rewrite <-app_assoc. f_equal.
    change (seq start (S n)) with ([start] ++ seq (S start) n).
    by rewrite filter_app.
Qed.

(** The saves of a loop, however it ends: those of the log epochs among the
    epochs entered, in order. *)
Lemma epoch_loop_saves x start n w w' r :
  epoch_loop x (seq start n) w = (w', r) →
  ∃ j, j ≤ n ∧ (if r is Ok _ then j = n else 0 < j) ∧
    Count.saves (log w')
    = Count.saves (log w) ++ filter (.∈ log_epochs x) (seq start j).
Proof.
  revert start w. induction n as [|n IH]; intros start w Hrun.
  { simpl in Hrun. injection Hrun as <- <-. exists 0.
    split; [done|]. split; [done|]. by rewrite app_nil_r. }
  rewrite seq_S in Hrun. cbn [epoch_loop] in Hrun.
  destruct (maybe_save_spec x start w) as (sv & _ & Hl1 & _ & Hsv).
  cbv zeta in Hl1.
  set (w1 := if bool_decide (start ∈ log_epochs x)
             then save_model x start w else w) in *.
  assert (Hc : Count.saves sv = filter (.∈ log_epochs x) [start]).
  { destruct Hsv as [[-> Hnot]|[-> Hin]].
    - by rewrite filter_cons_False, filter_nil.
    - by rewrite filter_cons_True, filter_nil. }
  destruct (_train_single_epoch x start w1) as [w2 r2] eqn:Htse.
  apply train_single_epoch_spec in Htse as (_ & steps & Hl2 & Hsteps & _).
  assert (Hs2 : Count.saves (log w2)
            = Count.saves (log w) ++ filter (.∈ log_epochs x) [start]).
  { rewrite Hl2, Hl1, !saves_app, Hc.
    replace (Count.saves steps) with (@nil nat); [by rewrite app_nil_r|].
    clear Hl2. induction steps as [|ev steps IHs]; [done|].
    destruct (Hsteps ev) as [b ->]; [left|]. simpl. apply IHs.
    intros ev Hev. apply Hsteps. by right. }
  destruct r2 as [acc|err].
  - apply IH in Hrun as (j & Hj & Hr & Hsaves). exists (S j).
    split; [lia|]. split; [destruct r; lia|].
    simpl in Hsaves. rewrite saves_app in Hsaves. simpl in Hsaves.
    rewrite app_nil_r in Hsaves. rewrite Hsaves, Hs2, <-app_assoc. f_equal.
    change (seq start (S j)) with ([start] ++ seq (S start) j).
    by rewrite filter_app.
  - injection Hrun as <- <-. exists 1. split; [lia|]. split; [lia|]. done.
Qed.

(** The loop over the batches fails in two ways only. *)
Lemma batch_loop_errors e bs c n w w' err :
  batch_loop e bs c n w = (w', Raise err) →
  err = RuntimeError ∨ err = ZeroDivisionError.
Proof.
  revert c n w. induction bs as [|b bs IH]; intros c n w; simpl; [done|].
  destruct (gradient_step (model w) b) as [[st nan] correct].
  destruct nan; [intros [= _ <-]; by left|].
  destruct (batch_len b =? 0); [intros [= _ <-]; by right|]. apply IH.
Qed.

Lemma epoch_loop_errors x epochs w w' err :
  epoch_loop x epochs w = (w', Raise err) →
  err = RuntimeError ∨ err = ZeroDivisionError.
Proof.
  revert w. induction epochs as [|e epochs IH]; intros w; simpl; [done|].
  set (w1 := if bool_decide (e ∈ log_epochs x) then save_model x e w else w).
  unfold _train_single_epoch.
  destruct (batch_loop e (train_loader x) 0 0 w1) as [w2 [[c n]|err2]] eqn:Hloop.
  - destruct (n =? 0); [intros [= _ <-]; by right|]. apply IH.
  - intros [= _ <-]. by eapply batch_loop_errors.
Qed.

(** A batch without inputs stops the pass over the batches. *)
Lemma batches_state_empty_batch bs n st b :
  b ∈ bs → batch_len b = 0 → batches_state bs n st = None.
Proof.
  revert n st. induction bs as [|b' bs IH]; intros n st Hin Hlen.
  { by apply elem_of_nil in Hin. }
  simpl. destruct (gradient_step st b') as [[st' nan] correct].
  apply elem_of_cons in Hin as [<-|Hin].
  - rewrite Hlen. simpl. by rewrite orb_true_r.
  - destruct (nan || (batch_len b' =? 0)); [done|]. by apply IH.
Qed.

Lemma train_via_resume x w :
  train x w =
  match resume w with
  | (w0, Raise err) => (w0, Raise err)
  | (w0, Ok (Some e)) =>
      if max_epochs x <=? e then (w0, Ok ()) else train_from x e w0
  | (w0, Ok None) => train_from x 0 w0
  end.
Proof.
  unfold train, resume. destruct (latest_checkpoint_path w); [|done].
  by destruct (load_model _ w) as [w0 [e|err]].
Qed.

(** A run with epochs left is [train_from] at the start epoch. *)
Lemma train_running x w w0 os :
  resume w = (w0, Ok os) → default 0 os < max_epochs x →
  train x w = train_from x (default 0 os) w0.
Proof.
  intros Hres Hleft. rewrite train_via_resume, Hres.
  destruct os as [e|]; [|done]. simpl in Hleft.
  by rewrite (proj2 (Nat.leb_gt _ _)).
Qed.

(** The restore writes no file, trains nothing and saves nothing. *)
Lemma resume_leaves w w0 os :
  resume w = (w0, Ok os) →
  files w0 = files w ∧
  ∃ evs, log w0 = log w ++ evs ∧ Count.saves evs = [] ∧
    ∀ k, steps_of k evs = 0 ∧ Count.lr_steps_of k evs = 0.
Proof.
  unfold resume. destruct (latest_checkpoint_path w) as [latest|].
  - unfold load_model. destruct (files w !! latest) as [[e st]|]; [|done].
    intros [= <- _]. split; [done|]. by exists [Loaded latest].
  - intros [= <- _]. split; [done|]. exists []. by rewrite app_nil_r.
Qed.

(** X3: with an empty train loader, a call of [train] that has epochs left
    ends with [ZeroDivisionError] in its first epoch: after the restore it
    does nothing but save the checkpoint of the start epoch, when that is a
    log epoch. *)
Theorem empty_loader_fails x w w0 os :
  train_loader x = [] →
  resume w = (w0, Ok os) →
  default 0 os < max_epochs x →
  train x w
  = (if bool_decide (default 0 os ∈ log_epochs x)
     then save_model x (default 0 os) w0 else w0,
     Raise ZeroDivisionError).
Proof.
  intros Hloader Hres Hleft. rewrite (train_running x w w0 os) by done.
  unfold train_from.
  destruct (max_epochs x - default 0 os) as [|n] eqn:Hn; [lia|].
  rewrite seq_S. cbn [epoch_loop]. unfold _train_single_epoch.
  by rewrite Hloader.
Qed.

(** X4: when the loader holds a batch without inputs, a call of [train] that
    has epochs left never returns normally: it ends with [ZeroDivisionError]
    or, when a loss is not-a-number before, with [RuntimeError], and the
    final checkpoint of [max_epochs] is not saved by it. *)
Theorem empty_batch_fails x w w0 os w' r b :
  b ∈ train_loader x → batch_len b = 0 →
  resume w = (w0, Ok os) →
  default 0 os < max_epochs x →
  train x w = (w', r) →
  (r = Raise ZeroDivisionError ∨ r = Raise RuntimeError) ∧
  Count.saves (log w') `prefix_of`
    Count.saves (log w)
    ++ filter (.∈ log_epochs x) (seq (default 0 os) (max_epochs x - default 0 os)).
Proof.
  intros Hb Hlen Hres Hleft. rewrite (train_running x w w0 os) by done.
  apply resume_leaves in Hres as (_ & lev & Hl0 & Hsv0 & _).
  unfold train_from.
  destruct (epoch_loop x _ w0) as [w1 r1] eqn:Hloop.
  destruct r1 as [u|err].
  - apply epoch_loop_spec in Hloop as (evs & _ & _ & _ & _ & Hst).
    destruct (max_epochs x - default 0 os) as [|n] eqn:Hn; [lia|].
    rewrite (after_epochs_fail x n (model w0)) in Hst; [done|].
    by eapply batches_state_empty_batch.
  - intros [= <- <-]. split.
    + apply epoch_loop_errors in Hloop as [->| ->]; auto.
    + apply epoch_loop_saves in Hloop as (j & Hj & _ & ->).
      rewrite Hl0, saves_app, Hsv0, app_nil_r. apply prefix_app.
      replace (max_epochs x - default 0 os)
        with (j + (max_epochs x - default 0 os - j)) by lia.
      rewrite seq_app, filter_app. by apply prefix_app_r.
Qed.

(** X5: a call of [train] that has epochs left and returns has gone through
    the train loader once in each epoch from the start epoch up to
    [max_epochs], and in no other, and has stepped the learning-rate
    schedule once after each of them. *)
Theorem completed_run_counts x w w0 os w' k :
  resume w = (w0, Ok os) →
  default 0 os < max_epochs x →
  train x w = (w', Ok ()) →
  steps_of k (log w')
  = steps_of k (log w)
    + (if bool_decide (default 0 os ≤ k < max_epochs x)
       then length (train_loader x) else 0) ∧
  Count.lr_steps_of k (log w')
  = Count.lr_steps_of k (log w)
    + (if bool_decide (default 0 os ≤ k < max_epochs x) then 1 else 0).
Proof.
  intros Hres Hleft. rewrite (train_running x w w0 os) by done.
  apply resume_leaves in Hres as (_ & lev & Hl0 & _ & Hz).
  destruct (Hz k) as [Hz1 Hz2].
  unfold train_from.
  destruct (epoch_loop x _ w0) as [w1 [u|err]] eqn:Hloop; [|done].
  intros [= <-].
  apply (epoch_loop_count _ _ _ _ _ _ k) in Hloop as (Hs & Hlr & _).
  replace (default 0 os + (max_epochs x - default 0 os))
    with (max_epochs x) in Hs, Hlr by lia.
  simpl. rewrite steps_of_app, lr_steps_of_app, Hs, Hlr, Hl0.
  rewrite steps_of_app, lr_steps_of_app, Hz1, Hz2. cbn. lia.
Qed.

(** X6: the checkpoints a call of [train] with epochs left saves are, in
    order, those of the log epochs among the epochs it entered, each before
    the epoch is trained; when the call returns these are all the log epochs
    from the start epoch up to [max_epochs], followed by the final
    checkpoint of [max_epochs]; when it fails the final checkpoint is not
    saved. *)
Theorem saves_of_a_run x w w0 os w' r :
  resume w = (w0, Ok os) →
  default 0 os < max_epochs x →
  train x w = (w', r) →
  ∃ entered,
    0 < entered ≤ max_epochs x - default 0 os ∧
    Count.saves (log w')
    = Count.saves (log w)
      ++ filter (.∈ log_epochs x) (seq (default 0 os) entered)
      ++ (if r is Ok _ then [max_epochs x] else []) ∧
    (if r is Ok _ then entered = max_epochs x - default 0 os else True).
Proof.
  intros Hres Hleft. rewrite (train_running x w w0 os) by done.
  apply resume_leaves in Hres as (_ & lev & Hl0 & Hsv0 & _).
  unfold train_from.
  destruct (epoch_loop x _ w0) as [w1 r1] eqn:Hloop.
  apply epoch_loop_saves in Hloop as (j & Hj & Hr & Hsaves).
  rewrite Hl0, saves_app, Hsv0, app_nil_r in Hsaves.
  destruct r1 as [u|err]; intros [= <- <-]; exists j.
  - subst j. split; [lia|]. split; [|done].
    simpl. by rewrite saves_app, Hsaves, <-app_assoc.
  - split; [lia|]. split; [|done]. by rewrite Hsaves, app_nil_r.
Qed.

(** X7: [train] deletes no checkpoint and writes only under the names of
    the epochs from the start epoch to [max_epochs]: every other path keeps
    what it held. *)
Theorem train_keeps_other_files x w w0 os w' r :
  resume w = (w0, Ok os) →
  train x w = (w', r) →
  dom (files w) ⊆ dom (files w') ∧
  ∀ p, (∀ E, default 0 os ≤ E ≤ max_epochs x → p ≠ Ckpt.path (models_dir x) E) →
       files w' !! p = files w !! p.
Proof.
  intros Hres Hrun.
  destruct (train_spec x w w' r Hrun) as (evs & _ & Hfiles & _).
  split.
  { rewrite Hfiles. clear. generalize (files w). 
    induction evs as [|ev evs IH]; intros fs; [done|]. simpl.
    etrans; [|apply IH]. destruct ev; try done.
    rewrite dom_insert. set_solver. }
  intros p Hp. rewrite train_via_resume, Hres in Hrun.
  apply resume_leaves in Hres as (Hf0 & _). rewrite <-Hf0.
  assert (Hfrom : ∀ start, default 0 os ≤ start ≤ max_epochs x →
            train_from x start w0 = (w', r) → files w' !! p = files w0 !! p).
  { intros start Hstart. unfold train_from.
    destruct (epoch_loop x _ w0) as [w1 r1] eqn:Hloop.
    apply epoch_loop_checkpoints in Hloop as [_ Hkept].
    assert (files w1 !! p = files w0 !! p) as Hw1.
    { apply Hkept. intros E HE. apply Hp. lia. }
    destruct r1 as [u|err]; intros [= <- <-]; [|done].
    rewrite save_model_lookup_ne; [done|]. apply Hp. lia. }
  destruct os as [e|].
  - destruct (Nat.leb_spec (max_epochs x) e); [by injection Hrun as <- <-|].
    apply (Hfrom e); [simpl; lia|done].
  - apply (Hfrom 0); [simpl; lia|done].
Qed.

(** The totals of the pass over the batches. *)
Lemma batch_loop_totals e bs c n w w' c' n' :
  (∀ st b, (gradient_step st b).2 ≤ batch_len b) →
  batch_loop e bs c n w = (w', Ok (c', n')) →
  n' = n + sum_list (batch_len <$> bs) ∧ (c ≤ n → c' ≤ n').
Proof.
  intros Hbound. revert c n w. induction bs as [|b bs IH]; intros c n w;
    cbn [batch_loop].
  { intros [= _ <- <-]. split; [simpl; lia|done]. }
  rewrite fmap_cons. cbn [sum_list sum_list_with].
  pose proof (Hbound (model w) b) as Hb.
  destruct (gradient_step (model w) b) as [[st nan] correct]. simpl in Hb.
  destruct nan; [done|]. destruct (batch_len b =? 0); [done|].
  intros [-> Hle]%IH. split; [unfold id; lia|]. intros Hc. apply Hle. lia.
Qed.

(** X17: when no batch has more correct predictions than inputs, the
    accuracy an epoch returns is a fraction between 0 and 1 whose
    denominator is the number of inputs of the whole loader, which is not
    zero. *)
Theorem epoch_accuracy_is_fraction x e w w' tot_correct tot_samples :
  (∀ st b, (gradient_step st b).2 ≤ batch_len b) →
  _train_single_epoch x e w = (w', Ok (tot_correct, tot_samples)) →
  tot_samples = sum_list (batch_len <$> train_loader x) ∧
  0 < tot_samples ∧ tot_correct ≤ tot_samples.
Proof.
  intros Hbound. unfold _train_single_epoch.
  destruct (batch_loop e (train_loader x) 0 0 w) as [w1 [[c n]|err]] eqn:Hloop;
    [|done].
  apply batch_loop_totals in Hloop as [Hn Hc]; [|done].
  destruct (Nat.eqb_spec n 0) as [|Hne]; [done|].
  intros [= _ <- <-]. split; [done|]. split; [lia|]. apply Hc. lia.
Qed.

End facts.

Import (hints) Toy.
Import (hints) Edge.

Lemma epoch_accuracy_is_fraction_toy :
  4 = sum_list (batch_len <$> train_loader Toy.short_run) ∧ 0 < 4 ∧ 1 ≤ 4.
Proof.
  apply (epoch_accuracy_is_fraction Toy.short_run 0 Toy.fresh
           (_train_single_epoch Toy.short_run 0 Toy.fresh).1 1 4).
  - intros st b. simpl. lia.
  - vm_compute. reflexivity.
Defined.

Lemma empty_loader_fails_toy :
  train Edge.empty_run Toy.fresh
  = (save_model Edge.empty_run 0 Toy.fresh, Raise ZeroDivisionError).
Proof.
  rewrite (empty_loader_fails Edge.empty_run Toy.fresh Toy.fresh None).
  - vm_compute. reflexivity.
  - reflexivity.
  - reflexivity.
  - simpl. lia.
Defined.

Lemma empty_batch_fails_toy :
  (train Edge.ragged_run Toy.fresh).2 = Raise ZeroDivisionError ∨
  (train Edge.ragged_run Toy.fresh).2 = Raise RuntimeError.
Proof.
  destruct (empty_batch_fails Edge.ragged_run Toy.fresh Toy.fresh None
              (train Edge.ragged_run Toy.fresh).1
              (train Edge.ragged_run Toy.fresh).2 (100, 0)) as [Hr _].
  - right. left.
  - reflexivity.
  - reflexivity.
  - simpl. lia.
  - vm_compute. reflexivity.
  - exact Hr.
Defined.

Lemma completed_run_counts_toy :
  steps_of 1 (log (train Toy.short_run Toy.fresh).1) = 1 ∧
  Count.lr_steps_of 1 (log (train Toy.short_run Toy.fresh).1) = 1.
Proof.
  destruct (completed_run_counts Toy.short_run Toy.fresh Toy.fresh None
              (train Toy.short_run Toy.fresh).1 1) as [Hs Hl].
  - reflexivity.
  - simpl. lia.
  - vm_compute. reflexivity.
  - rewrite Hs, Hl. vm_compute. split; reflexivity.
Defined.

Lemma saves_of_a_run_toy :
  Count.saves (log (train Toy.short_run Toy.fresh).1) = [0; 2; 3].
Proof.
  destruct (saves_of_a_run Toy.short_run Toy.fresh Toy.fresh None
              (train Toy.short_run Toy.fresh).1
              (train Toy.short_run Toy.fresh).2) as (entered & _ & Hs & He).
  - reflexivity.
  - simpl. lia.
  - vm_compute. reflexivity.
  - vm_compute in He. rewrite Hs, He. vm_compute. reflexivity.
Defined.

Lemma train_keeps_other_files_toy :
  files (train Edge.longer_run (train Toy.short_run Toy.fresh).1).1
    !! "models/000.tar"
  = Some (0, 0).
Proof.
  destruct (train_keeps_other_files Edge.longer_run
              (train Toy.short_run Toy.fresh).1
              (resume (train Toy.short_run Toy.fresh).1).1 (Some 3)
              (train Edge.longer_run (train Toy.short_run Toy.fresh).1).1
              (train Edge.longer_run (train Toy.short_run Toy.fresh).1).2)
    as [_ Hkept].
  - vm_compute. reflexivity.
  - vm_compute. reflexivity.
  - rewrite Hkept; [vm_compute; reflexivity|].
    intros E HE Heq. simpl in HE.
    apply (NameFacts.path_inj "models/" 0 E) in Heq. lia.
Defined.

End TrainMore.

(** ** More on [do_measurements]: what is handed over *)

Module MeasureMore.
Import Measure MeasureFacts.
Section facts.
Context {V Cache : Type} (fresh : Cache).
Implicit Types (s : state V Cache) (m : measurer V Cache).
Implicit Types (items : list (string * measurer V Cache)) (df : DataFrame V).

(** A key that is not there goes to the end. *)
Lemma od_set_fresh {A} key (value : A) d :
  key ∉ d.*1 → od_set key value d = d ++ [(key, value)].
Proof.
  induction d as [|[k v] d IH]; simpl; [done|].
  intros [Hne Hk]%not_elem_of_cons.
  destruct (String.eqb k key) eqn:E; [apply String.eqb_eq in E; congruence|].
  by rewrite IH.
Qed.

(** The loop over measurers whose records pass the checks. *)
Lemma measure_loop_result epoch items s :
  NoDup items.*1 →
  (∀ k, k ∈ items.*1 → k ∉ (all_measurements s).*1) →
  Forall (λ kv, Returned.empty kv.2 = false →
                "value" ∈ columns kv.2 ∧ (is_Some epoch → "epoch" ∉ columns kv.2))
         (Returned.returned items (shared_cache s)) →
  ∃ cache,
    measure_loop epoch items s
    = ({| shared_cache := cache;
          all_measurements :=
            all_measurements s ++
            ((λ kv, (kv.1, Returned.stamp epoch kv.2)) <$>
             List.filter (λ kv, negb (Returned.empty kv.2))
               (Returned.returned items (shared_cache s)));
          warnings :=
            warnings s ++
            (List.filter (λ kv, Returned.empty kv.2)
               (Returned.returned items (shared_cache s))).*1 |}, Ok ()).
Proof.
  revert s. induction items as [|[id m] items IH]; intros s Hnd Hnew Hvalid.
  { exists (shared_cache s). simpl. rewrite !app_nil_r. by destruct s. }
  rewrite fmap_cons in Hnd. apply NoDup_cons in Hnd as [Hid Hnd].
  cbn [measure_loop Returned.returned] in *.
  destruct (m (shared_cache s)) as [df cache] eqn:Hm.
  apply Forall_cons in Hvalid as [Hdf Hvalid]. cbn [snd fst] in Hdf.
  cbn [List.filter snd fst].
  change (length (rows df) =? 0) with (Returned.empty df).
  cbn [shared_cache all_measurements warnings].
  destruct (Returned.empty df) eqn:Hrows.
  - rewrite orb_true_r. cbn [negb].
    edestruct (IH {| shared_cache := cache;
                     all_measurements := all_measurements s;
                     warnings := warnings s ++ [id] |}) as [cache' ->].
    + done.
    + intros k Hk. apply Hnew. rewrite fmap_cons. by right.
    + done.
    + exists cache'. cbn [shared_cache all_measurements warnings].
      by rewrite fmap_cons, <-app_assoc.
  - destruct (Hdf eq_refl) as [Hvalue Hepoch].
    rewrite bool_decide_eq_true_2 by done. cbn [orb negb].
    assert (Hstamp : match epoch with
                     | Some e => insert0 "epoch" (Epoch e) df
                     | None => Ok df
                     end = Ok (Returned.stamp epoch df)).
    { destruct epoch as [e|]; [|done]. unfold insert0.
      rewrite bool_decide_eq_false_2; [done|]. by apply Hepoch. }
    rewrite Hstamp.
    rewrite od_set_fresh by (apply Hnew; rewrite fmap_cons; left).
    edestruct (IH {| shared_cache := cache;
                     all_measurements :=
                       all_measurements s ++ [(id, Returned.stamp epoch df)];
                     warnings := warnings s |}) as [cache' ->].
    + done.
    + intros k Hk. cbn [all_measurements]. rewrite fmap_app, elem_of_app.
      intros [Hin|Hin%list_elem_of_singleton].
      * revert Hin. apply Hnew. rewrite fmap_cons. by right.
      * simpl in Hin. by subst k.
    + done.
    + exists cache'. cbn [shared_cache all_measurements warnings].
      by rewrite fmap_cons, <-app_assoc.
Qed.


(** X9: when an epoch is given and a measurer returns a record with rows
    that already has an [epoch] column (besides [value]), inserting the
    epoch fails: [do_measurements] ends with [ValueError], hands nothing to
    the logger and calls no measurer after it.  Without an epoch the same
    record is stored as it is. *)
Theorem epoch_column_clash items1 id m items2 e s1 df cache :
  measure_loop (Some e) items1 (initial fresh) = (s1, Ok ()) →
  m (shared_cache s1) = (df, cache) →
  rows df ≠ [] → "value" ∈ columns df → "epoch" ∈ columns df →
  do_measurements fresh (items1 ++ (id, m) :: items2) (Some e)
  = (warnings s1, Raise ValueError) ∧
  measure_loop None ((id, m) :: items2) s1
  = measure_loop None items2
      {| shared_cache := cache;
         all_measurements := od_set id df (all_measurements s1);
         warnings := warnings s1 |}.
Proof.
  intros Hrun1 Hm Hrows Hvalue Hepoch.
  assert (Hlen : (length (rows df) =? 0) = false).
  { apply Nat.eqb_neq. by destruct (rows df). }
  split.
  - unfold do_measurements. rewrite measure_loop_app, Hrun1.
    cbn [measure_loop]. rewrite Hm, Hlen.
    rewrite bool_decide_eq_true_2 by done. cbn [orb negb].
    unfold insert0. by rewrite bool_decide_eq_true_2.
  - cbn [measure_loop]. rewrite Hm, Hlen.
    by rewrite bool_decide_eq_true_2.
Qed.

End facts.


Lemma epoch_column_clash_toy :
  do_measurements 0
    [("acc", Toy.good); ("clash", Edge.clashing); ("nc", Toy.good)] (Some 5)
  = ([], Raise ValueError).
Proof.
  destruct (epoch_column_clash 0 [("acc", Toy.good)] "clash" Edge.clashing
              [("nc", Toy.good)] 5
              (measure_loop (Some 5) [("acc", Toy.good)] (initial 0)).1
              (Edge.clashing 1).1 2) as [Hfail _].
  - vm_compute. reflexivity.
  - vm_compute. reflexivity.
  - discriminate.
  - apply (bool_decide_unpack _). vm_compute. exact I.
  - apply (bool_decide_unpack _). vm_compute. exact I.
  - exact Hfail.
Defined.

End MeasureMore.

(** ** More on the construction: the dict of measurers *)

Module InitMore.
Import Init.
Section facts.
Context {M X W : Type}.
Context (ALL FAST SLOW : list string) (instantiate : string → result M).
Context (before : result X) (copy_config_to_dir : X → result ()).
Context (train measure : experiment M X → W → W * result ()).

Lemma build_measures_ok l ms d :
  Forall2 (λ n m, instantiate n = Ok m) l ms → NoDup l →
  (∀ n, n ∈ l → n ∉ d.*1) →
  build_measures instantiate (YStr <$> l) d = Ok (d ++ zip l ms).
Proof.
  intros Hall. revert d. induction Hall as [|n m l ms Hn Hall IH]; intros d Hnd Hnew.
  { simpl. by rewrite app_nil_r. }
  apply NoDup_cons in Hnd as [Hnl Hnd]. simpl. rewrite Hn.
  rewrite MeasureMore.od_set_fresh by (apply Hnew; left).
  rewrite IH; [by rewrite <-app_assoc|done|].
  intros k Hk. rewrite fmap_app, elem_of_app.
  intros [Hin|Hin%list_elem_of_singleton].
  - revert Hin. apply Hnew. by right.
  - simpl in Hin. by subst k.
Qed.

Lemma build_measures_fail pre n post d err :
  Forall (λ k, ∃ m, instantiate k = Ok m) pre → instantiate n = Raise err →
  build_measures instantiate (YStr <$> (pre ++ n :: post)) d = Raise err.
Proof.
  intros Hpre Hn. revert d. induction Hpre as [|k pre [m Hk] Hpre IH]; intros d.
  - simpl. by rewrite Hn.
  - simpl. rewrite Hk. apply IH.
Qed.

Lemma build_measures_not_a_name pre y post d :
  Forall (λ k, ∃ m, instantiate k = Ok m) pre → (∀ s, y ≠ YStr s) →
  build_measures instantiate ((YStr <$> pre) ++ y :: post) d = Raise TypeError.
Proof.
  intros Hpre Hy. revert d. induction Hpre as [|k pre [m Hk] Hpre IH]; intros d.
  - simpl. destruct y; try done. by destruct (Hy s).
  - simpl. rewrite Hk. apply IH.
Qed.

(** X10: when the configuration value stands for a list of distinct names
    (a preset, or the list itself) and every name of it instantiates, the
    experiment gets one measurer per name, keyed by the name, in the order of
    the list. *)
Theorem listed_measures_built v l ms :
  measure_strings ALL FAST SLOW v = Ok (names l) → NoDup l →
  Forall2 (λ n m, instantiate n = Ok m) l ms →
  resolve_measures ALL FAST SLOW instantiate v = Ok (zip l ms).
Proof.
  intros Hv Hnd Hall. unfold resolve_measures. rewrite Hv. simpl.
  rewrite (build_measures_ok l ms []); [done..|].
  by intros n _ ?%elem_of_nil.
Qed.

(** X11: a name that [Measurer] does not instantiate ends the construction
    with the error it raised, whatever follows it in the list and before the
    configuration is copied; [run_experiment] then ends with that error and
    an untouched world: no training, no measurement. *)
Theorem unknown_measure_stops_construction v pre n post err x w :
  measure_strings ALL FAST SLOW v = Ok (names (pre ++ n :: post)) →
  Forall (λ k, ∃ m, instantiate k = Ok m) pre →
  instantiate n = Raise err → before = Ok x →
  __init__ ALL FAST SLOW instantiate before copy_config_to_dir v = Raise err ∧
  run_experiment ALL FAST SLOW instantiate before copy_config_to_dir
    train measure v w = (w, Raise err).
Proof.
  intros Hv Hpre Hn ->.
  assert (Hinit : __init__ ALL FAST SLOW instantiate (Ok x) copy_config_to_dir v
                  = Raise err).
  { unfold __init__, resolve_measures. rewrite Hv. simpl.
    by rewrite (build_measures_fail pre n post [] err). }
  split; [done|]. unfold run_experiment. by rewrite Hinit.
Qed.

(** X12: a configuration value that is null, [false] or a number cannot be
    iterated, and an element of a list that is not a string is no attribute
    name: in both cases the construction ends with [TypeError] (in the
    second, when the names before that element instantiate). *)
Theorem not_names_rejected x :
  before = Ok x →
  (∀ v, v = YNull ∨ v = YBool false ∨ (∃ n, v = YInt n) →
        __init__ ALL FAST SLOW instantiate before copy_config_to_dir v
        = Raise TypeError) ∧
  (∀ pre y post,
     Forall (λ k, ∃ m, instantiate k = Ok m) pre → (∀ s, y ≠ YStr s) →
     __init__ ALL FAST SLOW instantiate before copy_config_to_dir
       (YSeq ((YStr <$> pre) ++ y :: post))
     = Raise TypeError).
Proof.
  intros ->. split.
  - intros v [->|[->|[n ->]]]; done.
  - intros pre y post Hpre Hy. unfold __init__, resolve_measures. simpl.
    by rewrite build_measures_not_a_name.
Qed.

End facts.

Lemma listed_measures_built_toy :
  resolve_measures Toy.ALL_MEASURES Toy.FAST_MEASURES Toy.SLOW_MEASURES
    Toy.instantiate (YBool true)
  = Ok [("Accuracy", "Accuracy"); ("NC1", "NC1"); ("Traces", "Traces")].
Proof.
  apply (listed_measures_built Toy.ALL_MEASURES Toy.FAST_MEASURES Toy.SLOW_MEASURES
           Toy.instantiate (YBool true) Toy.ALL_MEASURES Toy.ALL_MEASURES).
  - reflexivity.
  - apply (bool_decide_unpack _). vm_compute. exact I.
  - repeat constructor.
Defined.

Lemma unknown_measure_stops_construction_toy :
  run_experiment (W := nat) Toy.ALL_MEASURES Toy.FAST_MEASURES Toy.SLOW_MEASURES
    Toy.instantiate (Ok ()) (λ _, Ok ())
    (λ _ w, (S w, Ok ())) (λ _ w, (S w, Ok ()))
    (names ["Accuracy"; "Bogus"; "NC1"]) 0
  = (0, Raise AttributeError).
Proof.
  apply (unknown_measure_stops_construction (W := nat) Toy.ALL_MEASURES
           Toy.FAST_MEASURES Toy.SLOW_MEASURES Toy.instantiate (Ok ()) (λ _, Ok ())
           (λ _ w, (S w, Ok ())) (λ _ w, (S w, Ok ()))
           (names ["Accuracy"; "Bogus"; "NC1"]) ["Accuracy"] "Bogus" ["NC1"]
           AttributeError () 0).
  - reflexivity.
  - apply Forall_cons. split; [by exists "Accuracy"|by constructor].
  - reflexivity.
  - reflexivity.
Defined.

Lemma not_names_rejected_toy :
  __init__ Toy.ALL_MEASURES Toy.FAST_MEASURES Toy.SLOW_MEASURES
    Toy.instantiate (Ok ()) (λ _, Ok ()) (YBool false)
  = Raise TypeError.
Proof.
  destruct (not_names_rejected Toy.ALL_MEASURES Toy.FAST_MEASURES Toy.SLOW_MEASURES
              Toy.instantiate (Ok ()) (λ _, Ok ()) () eq_refl) as [Hscalar _].
  apply Hscalar. right. by left.
Defined.

End InitMore.

(** ** More on the fan-out: the run directories *)

Module MainMore.
Import Main MainFacts.
Section facts.
Context {Config SaveDirs : Type}.
Context (parse_config_matrix : string → result (list (Config * string) * string)).
Context (make_save_dirs : string → result SaveDirs).
Context (set_save_dir : Config → SaveDirs → string → result Config).
Context (write_conf_to_savedir : Config → SaveDirs → string → result string).
Context (write_to_bash_script : nat → SaveDirs → string → result ()).
Context (sbatch : SaveDirs → nat → result ()).

Local Abbreviation main :=
  (Main.main parse_config_matrix make_save_dirs set_save_dir
             write_conf_to_savedir write_to_bash_script sbatch).
Local Abbreviation materialise :=
  (Main.materialise set_save_dir write_conf_to_savedir write_to_bash_script).

Lemma writes_S idx n :
  Written.writes idx (S n)
  = WroteConf idx :: WroteScript idx :: Written.writes (S idx) n.
Proof. done. Qed.

(** The loop over runs that can all be written. *)
Lemma materialise_prefix idx pre rest base log :
  (∀ i c rel, pre !! i = Some (c, rel) →
     ∃ c' run, set_save_dir c base rel = Ok c' ∧
               write_conf_to_savedir c' base rel = Ok run ∧
               write_to_bash_script (idx + i) base run = Ok ()) →
  materialise idx (pre ++ rest) base log
  = materialise (idx + length pre) rest base
      (log ++ Written.writes idx (length pre)).
Proof.
  revert idx log. induction pre as [|[c rel] pre IH]; intros idx log Hok.
  { simpl. by rewrite Nat.add_0_r, app_nil_r. }
  destruct (Hok 0 c rel eq_refl) as (c' & run & Hset & Hconf & Hscript).
  rewrite Nat.add_0_r in Hscript.
  cbn [app Main.materialise length]. rewrite Hset, Hconf, Hscript.
  rewrite IH.
  - rewrite writes_S, <-!app_assoc. simpl. by rewrite <-Nat.add_succ_r.
  - intros i c0 rel0 Hi. destruct (Hok (S i) c0 rel0 Hi) as (c0' & run0 & ?).
    exists c0', run0. by rewrite Nat.add_succ_l, <-Nat.add_succ_r.
Qed.

(** X13: when every run directory can be written, [main] writes the
    configuration and the launch script of each run, in the order of the
    runs, and only then calls [run_experiments], once, with the number of
    runs. *)
Theorem all_written_then_submitted path log configs parent base :
  parse_config_matrix path = Ok (configs, parent) →
  make_save_dirs parent = Ok base →
  (∀ i c rel, configs !! i = Some (c, rel) →
     ∃ c' run, set_save_dir c base rel = Ok c' ∧
               write_conf_to_savedir c' base rel = Ok run ∧
               write_to_bash_script i base run = Ok ()) →
  main path log
  = Main.run_experiments sbatch (seq 0 (length configs)) base
      (log ++ Written.writes 0 (length configs)).
Proof.
  intros Hparse Hdirs Hok. unfold Main.main. rewrite Hparse, Hdirs.
  rewrite <-(app_nil_r configs) at 1.
  by rewrite (materialise_prefix 0 configs [] base log).
Qed.

(** X14: when a run directory cannot be written (the path cannot be set, or
    the configuration or the launch script cannot be written), [main] ends
    with that error: the runs before it are written, the failing run has at
    most its configuration, no later run is touched and nothing is
    submitted. *)
Theorem failed_write_submits_nothing path log pre c rel post parent base err :
  parse_config_matrix path = Ok (pre ++ (c, rel) :: post, parent) →
  make_save_dirs parent = Ok base →
  (∀ i c rel, pre !! i = Some (c, rel) →
     ∃ c' run, set_save_dir c base rel = Ok c' ∧
               write_conf_to_savedir c' base rel = Ok run ∧
               write_to_bash_script i base run = Ok ()) →
  (set_save_dir c base rel = Raise err ∨
   ∃ c', set_save_dir c base rel = Ok c' ∧
     (write_conf_to_savedir c' base rel = Raise err ∨
      ∃ run, write_conf_to_savedir c' base rel = Ok run ∧
             write_to_bash_script (length pre) base run = Raise err)) →
  ∃ last,
    main path log = (log ++ Written.writes 0 (length pre) ++ last, Raise err) ∧
    (last = [] ∨ last = [WroteConf (length pre)]).
Proof.
  intros Hparse Hdirs Hok Hfail. unfold Main.main. rewrite Hparse, Hdirs.
  rewrite (materialise_prefix 0 pre _ base log) by done.
  cbn [Main.materialise Nat.add].
  destruct Hfail as [Hset|(c' & Hset & [Hconf|(run & Hconf & Hscript)])].
  - exists []. rewrite Hset, app_nil_r. auto.
  - exists []. rewrite Hset, Hconf, app_nil_r. auto.
  - exists [WroteConf (length pre)]. rewrite Hset, Hconf, Hscript.
    rewrite <-app_assoc. auto.
Qed.

End facts.

Lemma all_written_then_submitted_toy :
  Main.main Toy.parse_config_matrix (λ parent, Ok parent)
    (λ c _ _, Ok c) (λ _ _ rel, Ok rel) (λ _ _ _, Ok ()) (λ _ _, Ok ())
    "matrix.yaml" []
  = ([WroteConf 0; WroteScript 0; WroteConf 1; WroteScript 1;
      WroteConf 2; WroteScript 2; Submitted 0; Submitted 1; Submitted 2],
     Ok ()).
Proof.
  rewrite (all_written_then_submitted Toy.parse_config_matrix (λ parent, Ok parent)
             (λ c _ _, Ok c) (λ _ _ rel, Ok rel) (λ _ _ _, Ok ()) (λ _ _, Ok ())
             "matrix.yaml" []
             [(10, "lr_0.1"); (20, "lr_0.01"); (30, "lr_0.001")] "runs" "runs").
  - reflexivity.
  - reflexivity.
  - reflexivity.
  - intros i c rel _. by exists c, rel.
Defined.

Lemma failed_write_submits_nothing_toy :
  ∃ last,
    Main.main Toy.parse_config_matrix (λ parent, Ok parent)
      (λ c _ _, Ok c) (λ _ _ rel, Ok rel) Edge.write_to_bash_script (λ _ _, Ok ())
      "matrix.yaml" []
    = ([] ++ Written.writes 0 1 ++ last, Raise (OtherError "disk")) ∧
    (last = [] ∨ last = [WroteConf 1]).
Proof.
  apply (failed_write_submits_nothing Toy.parse_config_matrix (λ parent, Ok parent)
           (λ c _ _, Ok c) (λ _ _ rel, Ok rel) Edge.write_to_bash_script
           (λ _ _, Ok ()) "matrix.yaml" []
           [(10, "lr_0.1")] 20 "lr_0.01" [(30, "lr_0.001")] "runs" "runs").
  - reflexivity.
  - reflexivity.
  - intros i c rel Hi. destruct i as [|i]; [|done].
    exists c, rel. done.
  - right. exists 20. split; [reflexivity|]. right.
    exists "lr_0.01". split; reflexivity.
Defined.

End MainMore.

(** ** The measurements over all checkpoints *)

Module CampaignMore.
Import Campaign.
Section facts.
Context {Mdl V Cache : Type}.
Context (measures : list (string * (Mdl → Measure.measurer V Cache))).
Context (fresh : Cache).
Implicit Types (w : world Mdl V).

Local Abbreviation measure_all := (Campaign.measure_all measures fresh).
Local Abbreviation table_of := (Campaign.table_of measures fresh).

(** One checkpoint: its table is written, or the loop stops there. *)
Lemma measure_one p w :
  match table_of w p with
  | Some table =>
      ∃ w', measure_all [p] w = (w', Ok ()) ∧
            checkpoints w' = checkpoints w ∧ written w' = written w ++ [table]
  | None =>
      ∃ w' err, measure_all [p] w = (w', Raise err) ∧
                checkpoints w' = checkpoints w ∧ written w' = written w
  end.
Proof.
  unfold Campaign.table_of, Campaign.measure_all, load_model.
  destruct (checkpoints w !! p) as [[epoch mdl]|]; [|by exists w, FileNotFoundError].
  unfold do_measurements. cbn [wrapped_model].
  destruct (Measure.do_measurements fresh (measures_at measures mdl) (Some epoch))
    as [ws [table|err]]; [by eexists|by eexists _, err].
Qed.

Lemma measure_all_cons p l w :
  measure_all (p :: l) w
  = match measure_all [p] w with
    | (w1, Ok _) => measure_all l w1
    | (w1, Raise err) => (w1, Raise err)
    end.
Proof.
  cbn [Campaign.measure_all]. destruct (load_model p w) as [w1 [epoch|err]]; [|done].
  by destruct (do_measurements measures fresh (Some epoch) w1) as [w2 [u|err]].
Qed.

Lemma table_of_checkpoints w w' p :
  checkpoints w' = checkpoints w → table_of w' p = table_of w p.
Proof. unfold Campaign.table_of. by intros ->. Qed.

(** The loop over checkpoints that can all be measured. *)
Lemma measure_all_prefix pre rest tables w :
  Forall2 (λ p t, table_of w p = Some t) pre tables →
  ∃ w1, measure_all (pre ++ rest) w = measure_all rest w1 ∧
        checkpoints w1 = checkpoints w ∧ written w1 = written w ++ tables.
Proof.
  revert w tables. induction pre as [|p pre IH]; intros w tables Hall.
  { apply Forall2_nil_inv_l in Hall as ->. exists w. by rewrite app_nil_r. }
  apply Forall2_cons_inv_l in Hall as (t & tables' & Ht & Hall & ->).
  cbn [app]. rewrite measure_all_cons.
  pose proof (measure_one p w) as Hone. rewrite Ht in Hone.
  destruct Hone as (w1 & -> & Hc1 & Hw1).
  destruct (IH w1 tables') as (w2 & -> & Hc2 & Hw2).
  { eapply Forall2_impl; [exact Hall|]. intros q tq Hq. simpl in Hq.
    by rewrite (table_of_checkpoints w w1). }
  exists w2. split; [done|]. split; [congruence|].
  by rewrite Hw2, Hw1, <-app_assoc.
Qed.


End facts.


End CampaignMore.

(** ** The latest checkpoint, for names of any width *)

Module PaddedFacts.
Import Padded.

Lemma of_uint_acc_zeros k n : Nat.of_uint_acc (zeros k) n = n * 10 ^ k.
Proof.
  revert n. induction k as [|k IH]; intros n; [simpl; lia|].
  change (zeros (S k)) with (Decimal.D0 (zeros k)). cbn [Nat.of_uint_acc].
  rewrite IH, Nat.tail_mul_spec, Nat.pow_succ_r'. nia.
Qed.

Lemma to_uint_full width : Nat.to_uint (full width) = Decimal.D1 (zeros width).
Proof.
  assert (Hval : Nat.of_uint (Decimal.D1 (zeros width)) = full width).
  { unfold Nat.of_uint, full. cbn [Nat.of_uint_acc].
    rewrite of_uint_acc_zeros, Nat.tail_mul_spec. lia. }
  by rewrite <-Hval, DecimalNat.Unsigned.to_of.
Qed.

Lemma to_uint_half width :
  1 ≤ width → Nat.to_uint (half width) = Decimal.D5 (zeros (width - 1)).
Proof.
  intros _.
  assert (Hval : Nat.of_uint (Decimal.D5 (zeros (width - 1))) = half width).
  { unfold Nat.of_uint, half. cbn [Nat.of_uint_acc].
    rewrite of_uint_acc_zeros, Nat.tail_mul_spec. lia. }
  by rewrite <-Hval, DecimalNat.Unsigned.to_of.
Qed.

Lemma length_zeros k :
  String.length (DecimalString.NilEmpty.string_of_uint (zeros k)) = k.
Proof. induction k as [|k IH]; [done|]. simpl. by rewrite IH. Qed.

(** The two names: no padding is added to either. *)
Lemma path_full width dir :
  path width dir (full width)
  = dir +:+ String "1" (DecimalString.NilEmpty.string_of_uint (zeros width))
        +:+ ".tar".
Proof.
  unfold path, PyStr.str, PyStr.rjust. rewrite to_uint_full. simpl.
  rewrite length_zeros. by replace (width - S width) with 0 by lia.
Qed.

Lemma path_half width dir :
  1 ≤ width →
  path width dir (half width)
  = dir +:+ String "5" (DecimalString.NilEmpty.string_of_uint (zeros (width - 1)))
        +:+ ".tar".
Proof.
  intros Hw. unfold path, PyStr.str, PyStr.rjust. rewrite to_uint_half by done.
  simpl. rewrite length_zeros. by replace (width - S (width - 1)) with 0 by lia.
Qed.

(** As strings, the name of the greater epoch comes first. *)
Lemma half_sorts_last width dir :
  1 ≤ width →
  ¬ String.le (path width dir (half width)) (path width dir (full width)).
Proof.
  intros Hw. rewrite path_full, path_half by done.
  unfold String.le, String.leb. rewrite NameFacts.compare_app_head. simpl.
  by intros [].
Qed.

Lemma half_below_full width : 1 ≤ width → half width < full width.
Proof.
  intros Hw. unfold half, full.
  replace width with (S (width - 1)) at 2 by lia. rewrite Nat.pow_succ_r'. 
  assert (0 < 10 ^ (width - 1)) by (apply Nat.neq_0_lt_0, Nat.pow_nonzero; lia).
  lia.
Qed.

End PaddedFacts.

(** ** Resuming and calling again, for names of any width *)

Module LatestClaims.
Import Train TrainFacts ResumeFacts Padded PaddedFacts.
Section claims.
Context {St Batch : Type} `{Trainable St Batch}.
Implicit Types (w : world St) (x : experiment Batch).

(** Of the two checkpoints, [sorted(paths)[-1]] is the one of the smaller
    epoch. *)
Lemma latest_of_completed width dir w (s_half s_full : St) :
  1 ≤ width →
  files w = completed width dir s_half s_full →
  latest_checkpoint_path w = Some (path width dir (half width)).
Proof.
  intros Hw Hfiles.
  destruct (latest_checkpoint_path w) as [m|] eqn:Hlatest.
  - apply latest_some in Hlatest as [Hm Hmax]. f_equal.
    rewrite Hfiles in Hm, Hmax. unfold completed in Hm, Hmax.
    rewrite !dom_insert_L, dom_empty_L in Hm, Hmax.
    apply elem_of_union in Hm as [Hm%elem_of_singleton|Hm]; [done|].
    apply elem_of_union in Hm as [Hm%elem_of_singleton|Hm%elem_of_empty]; [|done].
    subst m. destruct (half_sorts_last width dir Hw).
    apply Hmax. set_solver.
  - apply latest_none in Hlatest. rewrite Hfiles in Hlatest.
    unfold completed in Hlatest. by apply insert_non_empty in Hlatest.
Qed.

Lemma load_of_completed width dir w (s_half s_full : St) :
  1 ≤ width →
  files w = completed width dir s_half s_full →
  load_model (path width dir (half width)) w
  = (record (Loaded (path width dir (half width))) (set_model s_half w),
     Ok (half width)).
Proof.
  intros Hw Hfiles. unfold load_model, completed in *.
  by rewrite Hfiles, lookup_insert_eq.
Qed.

(** C4: [train] takes [sorted(paths)[-1]] for the latest checkpoint, and the
    order of strings is not the order of epochs.  Whatever the width to
    which the epoch is padded in a file name: when the checkpoints of the
    epochs [half width] and [full width] are there, the greater epoch
    [full width] is saved and yet [train] restores model and optimizer from
    the checkpoint of [half width] and starts from that epoch. *)
Theorem train_restores_smaller_epoch width dir x w (s_half s_full : St) :
  1 ≤ width →
  files w = completed width dir s_half s_full →
  full width ∈ saved_epochs (files w) ∧ half width < full width ∧
  train x w
  = if max_epochs x <=? half width
    then (record (Loaded (path width dir (half width))) (set_model s_half w), Ok ())
    else train_from x (half width)
           (record (Loaded (path width dir (half width))) (set_model s_half w)).
Proof.
  intros Hw Hfiles. split; [|split].
  - apply saved_epochs_elem. exists (path width dir (full width)), s_full.
    rewrite Hfiles. unfold completed. rewrite lookup_insert_ne, lookup_insert_eq; [done|].
    intros Heq. apply (half_sorts_last width dir Hw). by rewrite Heq.
  - by apply half_below_full.
  - unfold train.
    rewrite (latest_of_completed width dir w s_half s_full) by done.
    by rewrite (load_of_completed width dir w s_half s_full).
Qed.

(** C3: a further call of [train] on a completed run is no no-op once the
    final epoch needs one digit more than the names are padded to.
    Whatever the width: on the checkpoints a run of [full width] epochs with
    the log epoch [half width] leaves, [train] restores the checkpoint of
    [half width] and runs the epoch loop from there; it does not just load a
    checkpoint and return, and when it returns it has trained every epoch
    from [half width] on once more. *)
Theorem completed_run_trains_again width dir x w (s_half s_full : St) :
  1 ≤ width →
  files w = completed width dir s_half s_full →
  max_epochs x = full width →
  train x w
  = train_from x (half width)
      (record (Loaded (path width dir (half width))) (set_model s_half w)) ∧
  (∀ latest st, train x w ≠ (record (Loaded latest) (set_model st w), Ok ())) ∧
  (∀ w' k, train x w = (w', Ok ()) → half width ≤ k < full width →
           steps_of k (log w') = steps_of k (log w) + length (train_loader x)).
Proof.
  intros Hw Hfiles Hmax.
  pose proof (half_below_full width Hw) as Hlt.
  assert (Hrun : train x w
            = train_from x (half width)
                (record (Loaded (path width dir (half width))) (set_model s_half w))).
  { unfold train.
    rewrite (latest_of_completed width dir w s_half s_full) by done.
    rewrite (load_of_completed width dir w s_half s_full) by done.
    by rewrite (proj2 (Nat.leb_gt _ _)) by lia. }
  split; [done|]. rewrite Hrun. split.
  - intros latest st Heq.
    apply train_from_spec in Heq as (evs & Hlog & _ & _ & _ & evs0 & ->).
    simpl in Hlog. rewrite <-app_assoc in Hlog. apply app_inv_head in Hlog.
    injection Hlog as _ Hnil. by destruct evs0.
  - intros w' k Hok Hk. unfold train_from in Hok.
    destruct (epoch_loop x _ _) as [w1 [u|err]] eqn:Hloop; [|done].
    injection Hok as <-.
    apply (TrainMore.epoch_loop_count _ _ _ _ _ _ k) in Hloop as (Hs & _).
    simpl in Hs. rewrite TrainMore.steps_of_app in Hs. simpl.
    rewrite TrainMore.steps_of_app, Hs.
    rewrite bool_decide_eq_true_2 by lia. cbn. lia.
Qed.

(** X19: where [sorted(paths)[-1]] is the latest checkpoint.  When
    checkpoints exist, all of epochs below 1000 and named to width three,
    [train] restores model and optimizer from the checkpoint of the
    numerically greatest saved epoch [E] and starts from [E]: it returns at
    once when [E] has reached [max_epochs] and trains from [E] otherwise. *)
Theorem train_resumes_from_greatest_below_1000 x w :
  named_below x 1000 (files w) → files w ≠ ∅ →
  ∃ E st,
    files w !! Ckpt.path (models_dir x) E = Some (E, st) ∧
    (∀ e, e ∈ saved_epochs (files w) → e ≤ E) ∧
    train x w
    = if max_epochs x <=? E
      then (record (Loaded (Ckpt.path (models_dir x) E)) (set_model st w), Ok ())
      else train_from x E
             (record (Loaded (Ckpt.path (models_dir x) E)) (set_model st w)).
Proof.
  intros Hnamed Hfiles.
  destruct (latest_checkpoint_path w) as [m|] eqn:Hlatest;
    [|by apply latest_none in Hlatest].
  destruct (latest_below_1000 x w m Hnamed Hlatest) as (E & st & -> & Hm & Hmax).
  exists E, st. split; [done|]. split; [done|].
  unfold train, load_model. by rewrite Hlatest, Hm.
Qed.

End claims.

Import (hints) Toy.

Lemma train_resumes_from_greatest_below_1000_toy :
  ∃ E st,
    files (train Toy.short_run Toy.fresh).1 !! Ckpt.path "models/" E = Some (E, st) ∧
    (∀ e, e ∈ saved_epochs (files (train Toy.short_run Toy.fresh).1) → e ≤ E) ∧
    train Edge.longer_run (train Toy.short_run Toy.fresh).1
    = if max_epochs Edge.longer_run <=? E
      then (record (Loaded (Ckpt.path "models/" E))
              (set_model st (train Toy.short_run Toy.fresh).1), Ok ())
      else train_from Edge.longer_run E
             (record (Loaded (Ckpt.path "models/" E))
                (set_model st (train Toy.short_run Toy.fresh).1)).
Proof.
  apply (train_resumes_from_greatest_below_1000 Edge.longer_run
           (train Toy.short_run Toy.fresh).1).
  - apply (bool_decide_unpack _). vm_compute. exact I.
  - apply (bool_decide_unpack _). vm_compute. exact I.
Defined.

Lemma train_restores_smaller_epoch_toy :
  full 3 ∈ saved_epochs (files (train Toy.long_run Toy.fresh).1) ∧
  half 3 < full 3 ∧
  train Toy.long_run (train Toy.long_run Toy.fresh).1
  = if max_epochs Toy.long_run <=? half 3
    then (record (Loaded (path 3 "models/" (half 3)))
            (set_model 500 (train Toy.long_run Toy.fresh).1), Ok ())
    else train_from Toy.long_run (half 3)
           (record (Loaded (path 3 "models/" (half 3)))
              (set_model 500 (train Toy.long_run Toy.fresh).1)).
Proof.
  apply (train_restores_smaller_epoch 3 "models/" Toy.long_run
           (train Toy.long_run Toy.fresh).1 500 1000).
  - lia.
  - vm_compute. reflexivity.
Defined.

Lemma completed_run_trains_again_toy :
  train Toy.long_run (train Toy.long_run Toy.fresh).1
  = train_from Toy.long_run (half 3)
      (record (Loaded (path 3 "models/" (half 3)))
         (set_model 500 (train Toy.long_run Toy.fresh).1)) ∧
  (∀ latest st,
     train Toy.long_run (train Toy.long_run Toy.fresh).1
     ≠ (record (Loaded latest) (set_model st (train Toy.long_run Toy.fresh).1),
        Ok ())) ∧
  (∀ w' k,
     train Toy.long_run (train Toy.long_run Toy.fresh).1 = (w', Ok ()) →
     half 3 ≤ k < full 3 →
     steps_of k (log w')
     = steps_of k (log (train Toy.long_run Toy.fresh).1)
       + length (train_loader Toy.long_run)).
Proof.
  apply (completed_run_trains_again 3 "models/" Toy.long_run
           (train Toy.long_run Toy.fresh).1 500 1000).
  - lia.
  - vm_compute. reflexivity.
  - vm_compute. reflexivity.
Defined.

End LatestClaims.

(** ** The scheduler from epoch 1000 on, for names of several widths *)

Module SchedPadded.
Import Sched.

(** C1: the stated order is missed from epoch 1000 on.  For the checkpoints
    of the epochs 1000, 2000 and 2005, none of them a priority epoch, the
    stated order is 2005, 2000, 1000.  The names of 1000 and 2000 end with
    [000.tar], the suffix tested for the priority epoch 0: the path of 1000
    is moved to the back, the path of 2000 then takes its place in the list
    and is skipped by the iteration, and the visit is 1000, 2005, 2000.
    This is so for names padded to any of the widths three to six. *)
Theorem stated_order_missed_from_1000 :
  Spec.visit_epochs [1000; 2000; 2005] = [2005; 2000; 1000] ∧
  Forall (λ width,
            visit_order (Padded.path width "models/" <$> [1000; 2000; 2005])
            = Some (Padded.path width "models/" <$> [1000; 2005; 2000]))
         [3; 4; 5; 6].
Proof.
  split; [by vm_compute|].
  repeat (apply Forall_cons; split; [by vm_compute|]). by constructor.
Qed.


End SchedPadded.

(** ** The measurements over all checkpoints, with shared records *)

Module SharedMore.
Import Shared.
Section facts.
Context {Mdl V Cache Obj : Type}.
Context (measures : list (string * measurer Mdl V Cache Obj)).
Context (fresh : Cache).
Implicit Types (w : world Mdl V Obj) (s : state V Cache Obj).

Local Abbreviation measure_all := (Shared.measure_all measures fresh).
Local Abbreviation do_measurements := (Shared.do_measurements measures fresh).

(** Every record the mapping points to carries the epoch [e]. *)
Local Abbreviation stamped e s :=
  (∀ id ref, (id, ref) ∈ all_measurements s →
     ∃ df, frames s !! ref = Some df ∧ Measure.stamped_with e df ∧
           "value" ∈ Measure.columns df).

(** The loop over measurers that make their records anew. *)
Lemma measure_loop_new e mdl (items : list (string * measurer Mdl V Cache Obj)) s :
  Forall (λ kv, hands_out_new kv.2) items → stamped e s →
  ∃ s', measure_loop (Some e) mdl items s = (s', Ok ()) ∧ stamped e s'.
Proof.
  intros Hnew. revert s. induction Hnew as [|[id m] items Hm Hnew IH]; intros s Hs.
  { by exists s. }
  destruct (Hm mdl (objs s) (shared_cache s) (frames s))
    as (ref & df & o' & cache' & Hcall & Hfree & Hdf).
  cbn [measure_loop snd] in *. rewrite Hcall. cbv beta iota zeta.
  rewrite lookup_insert_eq.
  assert (Hold : ∀ id' ref', (id', ref') ∈ all_measurements s → ref' ≠ ref).
  { intros id' ref' (df' & Hdf' & _)%Hs ->. by rewrite Hfree in Hdf'. }
  destruct (length (Measure.rows df) =? 0) eqn:Hrows.
  - rewrite orb_true_r. cbn [negb]. apply IH.
    intros id' ref' Hin. cbn [warn all_measurements frames] in *.
    destruct (Hs id' ref' Hin) as (df' & Hdf' & Hst).
    exists df'. split; [|done]. rewrite lookup_insert_ne; [done|].
    intros <-. by apply (Hold id' ref).
  - destruct Hdf as [Hvalue Hepoch].
    { intros Hnil. by rewrite Hnil in Hrows. }
    rewrite bool_decide_eq_true_2 by done. cbn [orb negb].
    unfold Measure.insert0. rewrite bool_decide_eq_false_2 by done.
    apply IH. intros id' ref' Hin. cbn [bind put all_measurements frames] in *.
    apply MeasureFacts.od_set_elem in Hin as [[= -> ->]|Hin].
    + eexists. rewrite lookup_insert_eq. split; [done|]. split.
      * split; [done|]. simpl. apply Forall_fmap, Forall_true. done.
      * simpl. by right.
    + destruct (Hs id' ref' Hin) as (df' & Hdf' & Hst).
      exists df'. split; [|done]. rewrite !lookup_insert_ne; [done|..];
        intros <-; by apply (Hold id' ref).
Qed.

(** One checkpoint measured by such measurers. *)
Lemma do_measurements_new e w :
  Forall (λ kv, hands_out_new kv.2) measures →
  ∃ w' table,
    do_measurements (Some e) w = (w', Ok ()) ∧
    checkpoints w' = checkpoints w ∧ written w' = written w ++ [table] ∧
    ∀ id df, (id, df) ∈ table →
             Measure.stamped_with e df ∧ "value" ∈ Measure.columns df.
Proof.
  intros Hnew. unfold Shared.do_measurements.
  edestruct (measure_loop_new e (wrapped_model w) measures) as (s' & -> & Hs');
    [done| |].
  { intros id ref Hin. simpl in Hin. by apply elem_of_nil in Hin. }
  eexists _, _. split; [done|]. split; [done|]. split; [done|].
  intros id df ([id' ref] & [= -> ->] & Hin)%list_elem_of_fmap. simpl.
  destruct (Hs' id' ref Hin) as (df' & -> & Hst). done.
Qed.


(** X22: when the measurer keeps one record, with rows and [value], and
    hands it out at every call, the first checkpoint of the visit is
    measured and its table written, with the epoch inserted into the kept
    record; at the second checkpoint the record has its [epoch] column
    already, the insertion fails and [do_measurements_on_checkpoints] ends
    with [ValueError]. *)
Theorem kept_record_fails_at_second_checkpoint id m ref df l p1 p2 rest e1 e2 m1 m2 w :
  measures = [(id, m)] → hands_out_again ref m →
  records w !! ref = Some df →
  Measure.rows df ≠ [] → "value" ∈ Measure.columns df →
  "epoch" ∉ Measure.columns df →
  Sched.visit_order l = Some (p1 :: p2 :: rest) →
  checkpoints w !! p1 = Some (e1, m1) → checkpoints w !! p2 = Some (e2, m2) →
  ∃ w',
    do_measurements_on_checkpoints measures fresh l w = (w', Raise ValueError) ∧
    written w' = written w ++ [[(id, Returned.stamp (Some e1) df)]] ∧
    records w' !! ref = Some (Returned.stamp (Some e1) df).
Proof.
  intros -> Hm Href Hrows Hvalue Hepoch Horder Hp1 Hp2.
  assert (Hlen : (length (Measure.rows df) =? 0) = false).
  { apply Nat.eqb_neq. by destruct (Measure.rows df). }
  unfold do_measurements_on_checkpoints. rewrite Horder.
  cbn [Shared.measure_all]. unfold load_model at 1. rewrite Hp1.
  unfold Shared.do_measurements at 1. cbn [Shared.measure_loop wrapped_model
    measurer_objs records objs shared_cache frames all_measurements warnings].
  rewrite Hm, Href, Hlen. rewrite bool_decide_eq_true_2 by done. cbn [orb negb].
  unfold Measure.insert0 at 1. rewrite bool_decide_eq_false_2 by done.
  cbn [bind put objs shared_cache frames all_measurements warnings
       Measure.od_set checkpoints].
  unfold load_model. cbn [checkpoints]. rewrite Hp2.
  unfold Shared.do_measurements. cbn [Shared.measure_loop wrapped_model
    measurer_objs records objs shared_cache frames all_measurements warnings].
  rewrite Hm, lookup_insert_eq. cbn [Measure.rows Measure.columns].
  rewrite length_fmap, Hlen.
  rewrite bool_decide_eq_true_2 by (by right). cbn [orb negb].
  unfold Measure.insert0. cbn [Measure.columns].
  rewrite bool_decide_eq_true_2 by left.
  eexists. split; [done|]. cbn [written records].
  split; [|cbn [frames]; by rewrite lookup_insert_eq].
  unfold snapshot. cbn [fmap list_fmap fst snd]. by rewrite lookup_insert_eq.
Qed.

End facts.


Lemma kept_record_fails_at_second_checkpoint_toy :
  ∃ w',
    do_measurements_on_checkpoints [("acc", EdgeShared.keeping)] 0
      Edge.listing EdgeShared.shelf = (w', Raise ValueError) ∧
    written w'
    = written EdgeShared.shelf
      ++ [[("acc", Returned.stamp (Some 1) EdgeShared.kept)]] ∧
    records w' !! 0 = Some (Returned.stamp (Some 1) EdgeShared.kept).
Proof.
  apply (kept_record_fails_at_second_checkpoint [("acc", EdgeShared.keeping)] 0
           "acc" EdgeShared.keeping 0 EdgeShared.kept Edge.listing
           "models/001.tar" "models/000.tar" ["models/005.tar"] 1 0 11 10).
  - reflexivity.
  - intros mdl o cache h. reflexivity.
  - vm_compute. reflexivity.
  - discriminate.
  - left.
  - by intros ?%list_elem_of_singleton.
  - vm_compute. reflexivity.
  - vm_compute. reflexivity.
  - vm_compute. reflexivity.
Defined.

End SharedMore.
